(** * thoth: a voice-message transcription bot

    Shallow embedding of [bob_bot.py] and [utils/utils.py] and the
    properties of the text splitter, the silence detector, the progress
    percentage and the [stt] handler. *)

From Stdlib Require Import ZArith NArith List Bool Lia String Ascii QArith Qround.
From Stdlib Require Import DecimalString PrimFloat FloatOps SpecFloat Uint63.
Import ListNotations.
Local Open Scope Z_scope.

(** ** Python strings

    A Python [str] is a sequence of Unicode code points. *)

Module PyStr.

Definition char := N.
Definition pystr := list char.

(** [len(s)] *)
Definition len (s : pystr) : Z := Z.of_nat (List.length s).

(** A string literal of the source, character by character. *)
Definition lit (s : string) : pystr :=
  List.map N_of_ascii (list_ascii_of_string s).

(** [str.isspace] on one code point: the whitespace table of CPython's
    Unicode database, which [str.split()] uses to find separators. *)
Definition isspace (c : char) : bool :=
  ((9 <=? c) && (c <=? 13) || (28 <=? c) && (c <=? 32)
   || (c =? 133) || (c =? 160) || (c =? 5760)
   || (8192 <=? c) && (c <=? 8202)
   || (c =? 8232) || (c =? 8233) || (c =? 8239) || (c =? 8287)
   || (c =? 12288))%N.

Definition space : char := 32%N.

(** The word collected so far, if any. *)
Definition flush (acc : pystr) : list pystr :=
  match acc with
  | [] => []
  | _ :: _ => [acc]
  end.

(** [s.split()] with no argument: the maximal runs of non-whitespace, in
    order; [acc] is the word being scanned, its last character first. *)
Fixpoint split_from (acc : pystr) (s : pystr) : list pystr :=
  match s with
  | [] => flush (List.rev acc)
  | c :: s' =>
      if isspace c then flush (List.rev acc) ++ split_from [] s'
      else split_from (c :: acc) s'
  end.

Definition split (s : pystr) : list pystr := split_from [] s.

(** [sep.join(parts)] *)
Fixpoint join (sep : pystr) (parts : list pystr) : pystr :=
  match parts with
  | [] => []
  | [p] => p
  | p :: ps => p ++ sep ++ join sep ps
  end.

(** A word: non-empty and free of whitespace. *)
Definition is_word (w : pystr) : Prop :=
  w <> [] /\ Forall (fun c => isspace c = false) w.

(** [str(n)] for an integer. *)
Definition str_of_int (n : Z) : pystr :=
  lit (NilZero.string_of_int (Z.to_int n)).

End PyStr.
Import PyStr.
Arguments lit : simpl never.

(** ** The text splitter *)

(** *** [bob_bot.split_string]: the list-returning version *)
Module BobBot.

(** The [for word in words] loop, with its two variables. *)
Fixpoint split_loop (words : list pystr) (result : list pystr)
    (current_string : pystr) : list pystr :=
  match words with
  | [] => result ++ [current_string]
  | word :: rest =>
      if len current_string + len word + 1 >? 4096
      then split_loop rest (result ++ [current_string]) word
      else split_loop rest result (current_string ++ lit " " ++ word)
  end.

Definition split_string (string : pystr) : list pystr :=
  if len string <? 4096 then [string]
  else split_loop (split string) [] [].

End BobBot.

(** *** [utils.split_string]: the generator version

    The generator is modelled by the sequence of the values it yields. *)
Module Utils.

Fixpoint split_loop (words : list pystr) (current_string : pystr)
    : list pystr :=
  match words with
  | [] => [current_string]
  | word :: rest =>
      if len current_string + len word >? 4095
      then current_string :: split_loop rest word
      else split_loop rest (current_string ++ lit " " ++ word)
  end.

Definition split_string (string : pystr) : list pystr :=
  if len string <? 4096 then [string]
  else split_loop (split string) [].

End Utils.

(** ** A test input for the splitter *)

(** [piece * n] *)
Fixpoint str_repeat (piece : pystr) (n : nat) : pystr :=
  match n with
  | O => []
  | S n' => piece ++ str_repeat piece n'
  end.

(** 8200 characters of single-character word and space pairs. *)
Definition pairs_8200 : pystr := str_repeat (lit "a ") 4100.

(** ** The reconstruction the specification words

    A text with every run of whitespace collapsed to a single space;
    [in_run] tells that the character before was whitespace. *)
Fixpoint collapse_from (in_run : bool) (s : pystr) : pystr :=
  match s with
  | [] => []
  | c :: s' =>
      if isspace c
      then (if in_run then [] else [space]) ++ collapse_from true s'
      else c :: collapse_from false s'
  end.

Definition collapse_ws (s : pystr) : pystr := collapse_from false s.

(** The pieces, put together with single spaces, are the text [s] modulo
    the collapsing of whitespace runs to single spaces. *)
Definition reconstructs (s : pystr) (pieces : list pystr) : Prop :=
  collapse_ws (join (lit " ") pieces) = collapse_ws s.

(** ** Exceptions *)

(** A Python exception, with the text [str(e)] gives.  The values stand
    for exceptions of class [Exception], the ones an [except Exception]
    clause binds; a [BaseException] outside that class, such as
    [asyncio.CancelledError] or [KeyboardInterrupt], is not modelled. *)
Record exn : Type := Exception { exn_class : string; exn_str : pystr }.

Inductive outcome (A : Type) : Type :=
| Ok (a : A)
| Raise (e : exn).
Arguments Ok {A} a.
Arguments Raise {A} e.

Definition ZeroDivisionError : exn :=
  Exception "ZeroDivisionError" (lit "division by zero").
Definition IndexError : exn :=
  Exception "IndexError" (lit "list index out of range").

(** ** Double-precision arithmetic

    Python's [float] is IEEE 754 binary64.  A finite value is kept as
    [mant * 2 ^ expo]; every operation computes the exact rational result
    and rounds it to 53 significant bits, ties to even, with binary64's
    least exponent.  Overflow needs operands beyond 2^1000 and is left out:
    the integers below are list lengths and sample rates. *)
Module Binary64.

Record float : Type := Float { mant : Z; expo : Z }.

Definition emin : Z := -1074.

(** The nearest integer to [n / d], ties to even, for [0 <= n], [0 < d]. *)
Definition round_half_even (n d : Z) : Z :=
  let q := n / d in
  let r := n mod d in
  if 2 * r <? d then q
  else if d <? 2 * r then q + 1
  else if Z.even q then q else q + 1.

(** [floor (log2 (n / d))] for [0 < n], [0 < d]. *)
Definition ilog2 (n d : Z) : Z :=
  let k := Z.log2 n - Z.log2 d in
  if n * 2 ^ Z.max 0 (- k) <? d * 2 ^ Z.max 0 k then k - 1 else k.

(** The exponent of the last place of the double nearest [n / d]. *)
Definition ulp_exp (n d : Z) : Z := Z.max (ilog2 n d - 52) emin.

(** Rounding of the rational [n / d], [0 <= n], [0 < d]. *)
Definition round_pos (n d : Z) : float :=
  if n =? 0 then Float 0 emin
  else
    let e := ulp_exp n d in
    Float (round_half_even (n * 2 ^ Z.max 0 (- e)) (d * 2 ^ Z.max 0 e)) e.

(** Rounding of [n / d] for any signs, [d <> 0]. *)
Definition round (n d : Z) : float :=
  let r := round_pos (Z.abs n) (Z.abs d) in
  Float (Z.sgn n * Z.sgn d * mant r) (expo r).

(** A double as the fraction [num / den]. *)
Definition num (x : float) : Z := mant x * 2 ^ Z.max 0 (expo x).
Definition den (x : float) : Z := 2 ^ Z.max 0 (- expo x).

(** [float(n)], for [n] below 2^1024 in absolute value; the
    [OverflowError] of a larger integer is not modelled. *)
Definition of_int (n : Z) : float := round n 1.

(** [a / b] on two integers: the correctly rounded quotient. *)
Definition int_true_div (a b : Z) : outcome float :=
  if b =? 0 then Raise ZeroDivisionError else Ok (round a b).

(** [x * y] *)
Definition mul (x y : float) : float :=
  round (num x * num y) (den x * den y).

(** [x / y] *)
Definition div (x y : float) : outcome float :=
  if mant y =? 0
  then Raise (Exception "ZeroDivisionError" (lit "float division by zero"))
  else Ok (round (num x * den y) (den x * num y)).

(** [int(x)]: truncation toward zero. *)
Definition to_int (x : float) : Z := Z.quot (num x) (den x).

(** [round(x)]: the nearest integer, ties to even. *)
Definition py_round (x : float) : Z :=
  Z.sgn (mant x) * round_half_even (Z.abs (num x)) (den x).

(** Order of the values denoted. *)
Definition le (x y : float) : Prop := num x * den y <= num y * den x.

(** The value of a finite, non-negative hardware double. *)
Definition of_prim (f : PrimFloat.float) : option float :=
  match Prim2SF f with
  | S754_zero _ => Some (Float 0 emin)
  | S754_finite false m e => Some (Float (Zpos m) e)
  | _ => None
  end.

Definition prim_of_Z (n : Z) : PrimFloat.float :=
  PrimFloat.of_uint63 (Uint63.of_Z n).

(** Does the model give the double the hardware computes for
    [i / n * 100]? *)
Definition agrees_with_hardware (i n : Z) : bool :=
  match int_true_div i n,
        of_prim (PrimFloat.mul (PrimFloat.div (prim_of_Z i) (prim_of_Z n))
                   (prim_of_Z 100)) with
  | Ok q, Some f =>
      let x := mul q (of_int 100) in
      (num x * den f =? num f * den x)
  | _, _ => false
  end.

Definition agrees_up_to (n : nat) : bool :=
  List.forallb (fun k =>
    List.forallb (fun i => agrees_with_hardware (Z.of_nat i) (Z.of_nat k))
      (List.seq 1 k)) (List.seq 1 n).

End Binary64.

(** ** The progress percentage

    [int((i + 1) / num_chunks * 100)], given [done = i + 1]. *)
Definition percentage (done num_chunks : Z) : outcome Z :=
  match Binary64.int_true_div done num_chunks with
  | Ok q => Ok (Binary64.to_int (Binary64.mul q (Binary64.of_int 100)))
  | Raise e => Raise e
  end.

(** The percentage as the specification words it:
    [round((chunks_done / total_chunks) * 100)]. *)
Definition spec_percentage (chunks_done total_chunks : Z) : outcome Z :=
  match Binary64.int_true_div chunks_done total_chunks with
  | Ok q => Ok (Binary64.py_round (Binary64.mul q (Binary64.of_int 100)))
  | Raise e => Raise e
  end.

(** ** The silence detector *)

(** The element operations numpy applies to the samples of a buffer. *)
Class Sample (A : Type) : Type := {
  s_zero : A;               (* the sample 0, also the sum of an empty slice *)
  s_abs : A -> A;           (* one element of [np.abs] *)
  s_add : A -> A -> A;      (* the addition under [.sum()] *)
  s_ltb : A -> A -> bool    (* [s < threshold] *)
}.

(** Integer samples. *)
#[export] Instance Sample_Z : Sample Z :=
  {| s_zero := 0; s_abs := Z.abs; s_add := Z.add; s_ltb := Z.ltb |}.

(** Hardware floating-point samples. *)
#[export] Instance Sample_float : Sample PrimFloat.float :=
  {| s_zero := PrimFloat.zero; s_abs := PrimFloat.abs;
     s_add := PrimFloat.add; s_ltb := PrimFloat.ltb |}.

Module Silence.
Section WithSamples.
Context {A : Type} `{Sample A}.

(** [len(audio)] *)
Definition alen (audio : list A) : Z := Z.of_nat (List.length audio).

(** A buffer of zero samples only. *)
Definition all_zero (audio : list A) : Prop :=
  Forall (fun x => x = s_zero) audio.

(** [range(start, stop, step)]; a zero step is a [ValueError]. *)
Definition range_length (start stop step : Z) : Z :=
  if 0 <? step then
    if start <? stop then (stop - start - 1) / step + 1 else 0
  else
    if stop <? start then (start - stop - 1) / (- step) + 1 else 0.

Definition py_range (start stop step : Z) : outcome (list Z) :=
  if step =? 0
  then Raise (Exception "ValueError" (lit "range() arg 3 must not be zero"))
  else Ok (List.map (fun k => start + Z.of_nat k * step)
             (List.seq 0 (Z.to_nat (range_length start stop step)))).

(** [audio[lo:hi]] for [0 <= lo]; the slice is clipped to the buffer. *)
Definition slice (audio : list A) (lo hi : Z) : list A :=
  List.firstn (Z.to_nat (hi - lo)) (List.skipn (Z.to_nat lo) audio).

(** [np.abs(window).sum()] *)
Definition abs_sum (window : list A) : A :=
  List.fold_left s_add (List.map s_abs window) s_zero.

(** [librosa.get_duration(y=audio, sr=sr)]: the number of samples over the
    sample rate, as a float. *)
Definition get_duration (audio : list A) (sr : Z) : outcome Binary64.float :=
  Binary64.div (Binary64.of_int (alen audio)) (Binary64.of_int sr).

(** The counting loop over the reversed window energies, with its [break]. *)
Fixpoint count_silent (seconds : list A) (threshold : A) (count : Z) : Z :=
  match seconds with
  | [] => count
  | s :: rest =>
      if s_ltb s threshold then count_silent rest threshold (count + 1)
      else count
  end.

(** [detect_silence(audio, sr, threshold)], where the source gives
    [threshold] the default 70.  The [except] clause logs the exception
    and raises it again, so a failure reaches the caller as it is. *)
Definition detect_silence (audio : list A) (sr : Z) (threshold : A)
    : outcome (Z * Binary64.float) :=
  match get_duration audio sr with
  | Raise e => Raise e
  | Ok d =>
      let duration := Binary64.mul d (Binary64.of_int 1000) in
      match py_range 0 (alen audio) sr with
      | Raise e => Raise e
      | Ok starts =>
          let seconds :=
            List.map (fun s => abs_sum (slice audio s (s + sr))) starts in
          let seconds := List.rev seconds in
          let count := count_silent seconds threshold 0 in
          match Binary64.div duration (Binary64.of_int 1000) with
          | Raise e => Raise e
          | Ok seconds_total => Ok (count, seconds_total)
          end
      end
  end.

End WithSamples.

(** The count the specification words: [floor(d / window_size)], with [d]
    the duration in seconds of a buffer of [n] samples at rate [sr]. *)
Definition spec_silent_count (n sr : Z) (window_size : Q) : Z :=
  Qfloor ((n # Z.to_pos sr) / window_size).

(** The number of windows of [sr] samples that cover [n] samples. *)
Definition window_count (n sr : Z) : Z := (n + sr - 1) / sr.

End Silence.

(** ** The [stt] handler *)

(** The handle [reply_text] returns for a sent message. *)
Record message : Type := Message { chat_id : Z; message_id : Z }.

(** The part of the incoming [update] the handler reads.  [main] registers
    the handler under [filters.VOICE]: the update is taken to carry a
    message with a voice attachment, and the [AttributeError] of lines 91
    and 93 on an update without one is not modelled. *)
Record update : Type := Update { username : pystr; voice_file_id : pystr }.

(** Modelled from the spec: the class [whisper_inference_model] lives in
    [inference_model.py], which is not among the sources; its attribute
    [new_sr] is taken to hold the constructor's [new_sample_rate], the
    16 kHz rate the specification says the model requires. *)
Record whisper_inference_model : Type :=
  WhisperModel { new_sr : Z; seconds_per_chunk : Z }.

Definition whisper : whisper_inference_model :=
  {| new_sr := 16000; seconds_per_chunk := 20 |}.

(** [librosa.load]'s default target rate, used when the call names none. *)
Definition librosa_default_sr : Z := 22050.

(** The three places where [stt] calls [reply_text]: the progress message,
    a piece of the transcript, the text of a caught exception. *)
Inductive role : Type := Progress | Transcript | Error.

Definition role_eqb (a b : role) : bool :=
  match a, b with
  | Progress, Progress | Transcript, Transcript | Error, Error => true
  | _, _ => false
  end.

(** The calls [stt] makes to its collaborators. *)
Inductive call : Type :=
| GetFile (file_id : pystr)
| DownloadToDrive
| LibrosaLoad (sr : Z)
| GetChunks (sr : Z)
| Processor (sampling_rate : Z)
| Generate
| BatchDecode
| ReplyText (r : role) (text : pystr)
| EditMessageText (text : pystr) (m : message)
| DeleteMessage (m : message).

(** What a run leaves behind: each call with the exception it raised, if
    any, and the lines logged. *)
Inductive event : Type :=
| Called (c : call) (raised : option exn)
| LogInfo (text : pystr)
| LogError (e : exn).

Definition trace := list event.

Section Handler.
Context {world file audio chunk features ids : Type}.

(** The messaging platform, the audio decoder and the speech model: every
    call may change the world and may raise. *)
Record platform : Type := {
  get_file : pystr -> world -> world * outcome file;
  download_to_drive : file -> world -> world * outcome unit;
  decode : Z -> world -> world * outcome audio;
  get_chunks : audio -> Z -> world -> world * outcome (list chunk * Z);
  processor : chunk -> Z -> world -> world * outcome features;
  generate : features -> world -> world * outcome ids;
  batch_decode : ids -> world -> world * outcome (list pystr);
  reply_text : pystr -> world -> world * outcome message;
  edit_message_text : pystr -> message -> world -> world * outcome unit;
  delete_message : message -> world -> world * outcome unit
}.

(** A computation: from a world to the new world, the events of the run
    and a value or an exception. *)
Definition M (X : Type) : Type := world -> world * trace * outcome X.

Definition ret {X} (x : X) : M X := fun w => (w, [], Ok x).

Definition bind {X Y} (m : M X) (f : X -> M Y) : M Y :=
  fun w =>
    match m w with
    | (w1, t1, Ok x) =>
        match f x w1 with
        | (w2, t2, r) => (w2, t1 ++ t2, r)
        end
    | (w1, t1, Raise e) => (w1, t1, Raise e)
    end.

(** [try: m  except Exception as e: h e] *)
Definition try_except {X} (m : M X) (h : exn -> M X) : M X :=
  fun w =>
    match m w with
    | (w1, t1, Ok x) => (w1, t1, Ok x)
    | (w1, t1, Raise e) =>
        match h e w1 with
        | (w2, t2, r) => (w2, t1 ++ t2, r)
        end
    end.

(** A call to a collaborator, recorded with its outcome. *)
Definition do_call {X} (c : call) (op : world -> world * outcome X) : M X :=
  fun w =>
    match op w with
    | (w1, Ok x) => (w1, [Called c None], Ok x)
    | (w1, Raise e) => (w1, [Called c (Some e)], Raise e)
    end.

Definition log (ev : event) : M unit := fun w => (w, [ev], Ok tt).

(** A pure step that may raise. *)
Definition lift {X} (o : outcome X) : M X := fun w => (w, [], o).

Notation "x <- m ;; k" := (bind m (fun x => k))
  (at level 61, m at next level, right associativity).
Notation "m ;;; k" := (bind m (fun _ => k))
  (at level 61, right associativity).

Variable P : platform.

(** [librosa.load(file_path, sr=sr)]: the decoded buffer and its rate. *)
Definition librosa_load (sr : Z) : M (audio * Z) :=
  y <- do_call (LibrosaLoad sr) (decode P sr) ;;
  ret (y, sr).

(** [transcription[0]] *)
Definition first_of (transcription : list pystr) : outcome pystr :=
  match transcription with
  | [] => Raise IndexError
  | t :: _ => Ok t
  end.

(** [f"Processing data: {current_percentage}%"] *)
Definition progress_text (current_percentage : Z) : pystr :=
  lit "Processing data: " ++ str_of_int current_percentage ++ lit "%".

(** The three model calls on one chunk. *)
Definition transcribe (c : chunk) : M pystr :=
  input_features <- do_call (Processor (new_sr whisper))
                      (processor P c (new_sr whisper)) ;;
  predicted_ids <- do_call Generate (generate P input_features) ;;
  transcription <- do_call BatchDecode (batch_decode P predicted_ids) ;;
  lift (first_of transcription).

(** The [for i, chunk in enumerate(chunks)] loop. *)
Fixpoint stt_loop (i : Z) (chunks : list chunk) (num_chunks : Z)
    (msg : message) (decoded_message : pystr) : M pystr :=
  match chunks with
  | [] => ret decoded_message
  | c :: rest =>
      t <- transcribe c ;;
      let decoded_message := decoded_message ++ t in
      current_percentage <- lift (percentage (i + 1) num_chunks) ;;
      let text := progress_text current_percentage in
      do_call (EditMessageText text msg) (edit_message_text P text msg) ;;;
      stt_loop (i + 1) rest num_chunks msg decoded_message
  end.

(** The [for msg in msgs_list] loop. *)
Fixpoint send_all (msgs_list : list pystr) : M unit :=
  match msgs_list with
  | [] => ret tt
  | msg :: rest =>
      log (LogInfo (lit "Transcription: " ++ msg)) ;;;
      do_call (ReplyText Transcript msg) (reply_text P msg) ;;;
      send_all rest
  end.

(** Lines 93 to 99: fetch the voice file and decode it.  These calls stand
    before the [try]. *)
Definition downloading (u : update) : M (audio * Z) :=
  new_file <- do_call (GetFile (voice_file_id u))
                (get_file P (voice_file_id u)) ;;
  do_call DownloadToDrive (download_to_drive P new_file) ;;;
  librosa_load librosa_default_sr.

(** Line 102. *)
Definition chunking (a : audio * Z) : M (list chunk * Z) :=
  do_call (GetChunks (snd a)) (get_chunks P (fst a) (snd a)).

(** Lines 104 to 138: the progress message and the loop over the chunks. *)
Definition transcribing (c : list chunk * Z) : M (message * pystr) :=
  let decoded_message := [] in
  let current_percentage := 0 in
  msg <- do_call (ReplyText Progress (progress_text current_percentage))
           (reply_text P (progress_text current_percentage)) ;;
  decoded_message <- stt_loop 0 (fst c) (snd c) msg decoded_message ;;
  ret (msg, decoded_message).

(** Lines 140 to 149: remove the progress message, send the transcript. *)
Definition finalizing (t : message * pystr) : M unit :=
  do_call (DeleteMessage (fst t)) (delete_message P (fst t)) ;;;
  send_all (BobBot.split_string (snd t)).

(** Lines 151 to 153. *)
Definition on_exception (e : exn) : M unit :=
  log (LogError e) ;;;
  do_call (ReplyText Error (exn_str e)) (reply_text P (exn_str e)) ;;;
  ret tt.

(** The body of the [try]. *)
Definition guarded (a : audio * Z) : M unit :=
  c <- chunking a ;;
  t <- transcribing c ;;
  finalizing t.

Definition stt (u : update) : M unit :=
  log (LogInfo (lit "stt called from " ++ username u)) ;;;
  a <- downloading u ;;
  try_except (guarded a) on_exception.

(** The phase of the request in which an exception was raised, if any
    was before the transcript is complete. *)
Inductive phase : Type := Downloading | Chunking | Transcribing.

Definition failed_phase (u : update) (w : world) : option (phase * exn) :=
  match downloading u w with
  | (_, _, Raise e) => Some (Downloading, e)
  | (w1, _, Ok a) =>
      match chunking a w1 with
      | (_, _, Raise e) => Some (Chunking, e)
      | (w2, _, Ok c) =>
          match transcribing c w2 with
          | (_, _, Raise e) => Some (Transcribing, e)
          | (_, _, Ok _) => None
          end
      end
  end.

End Handler.

Arguments platform : clear implicits.
Arguments M : clear implicits.

(** *** Reading a trace *)

Definition run_trace {W X} (r : W * trace * outcome X) : trace := snd (fst r).
Definition run_result {W X} (r : W * trace * outcome X) : outcome X := snd r.

(** The texts [reply_text] was called with at the site [r]. *)
Definition attempted (r : role) (tr : trace) : list pystr :=
  List.flat_map (fun ev =>
    match ev with
    | Called (ReplyText r' text) _ => if role_eqb r r' then [text] else []
    | _ => []
    end) tr.

(** The texts of the messages of site [r] that reached the user. *)
Definition delivered (r : role) (tr : trace) : list pystr :=
  List.flat_map (fun ev =>
    match ev with
    | Called (ReplyText r' text) None => if role_eqb r r' then [text] else []
    | _ => []
    end) tr.

(** The texts of the progress edits tried, in order. *)
Definition edits (tr : trace) : list pystr :=
  List.flat_map (fun ev =>
    match ev with
    | Called (EditMessageText text _) _ => [text]
    | _ => []
    end) tr.

(** The exceptions raised by progress edits. *)
Definition edit_failures (tr : trace) : list exn :=
  List.flat_map (fun ev =>
    match ev with
    | Called (EditMessageText _ _) (Some e) => [e]
    | _ => []
    end) tr.

(** The exceptions raised by the model on a chunk. *)
Definition model_failures (tr : trace) : list exn :=
  List.flat_map (fun ev =>
    match ev with
    | Called (Processor _) (Some e) | Called Generate (Some e)
    | Called BatchDecode (Some e) => [e]
    | _ => []
    end) tr.

(** The exceptions logged at error level. *)
Definition logged_errors (tr : trace) : list exn :=
  List.flat_map (fun ev =>
    match ev with
    | LogError e => [e]
    | _ => []
    end) tr.

(** The sample rates the run handed to the decoder, the chunker and the
    feature extractor. *)
Definition decode_rates (tr : trace) : list Z :=
  List.flat_map (fun ev =>
    match ev with Called (LibrosaLoad sr) _ => [sr] | _ => [] end) tr.

Definition chunker_rates (tr : trace) : list Z :=
  List.flat_map (fun ev =>
    match ev with Called (GetChunks sr) _ => [sr] | _ => [] end) tr.

Definition extractor_rates (tr : trace) : list Z :=
  List.flat_map (fun ev =>
    match ev with Called (Processor sr) _ => [sr] | _ => [] end) tr.

(** Which events each part of the handler can leave. *)
Definition download_event (ev : event) : Prop :=
  match ev with
  | Called (GetFile _) _ | Called DownloadToDrive _ => True
  | Called (LibrosaLoad sr) _ => sr = librosa_default_sr
  | _ => False
  end.

Definition loop_event (ev : event) : Prop :=
  match ev with
  | Called (Processor sr) _ => sr = new_sr whisper
  | Called Generate _ | Called BatchDecode _
  | Called (EditMessageText _ _) _ => True
  | _ => False
  end.

Definition final_event (ev : event) : Prop :=
  match ev with
  | Called (DeleteMessage _) _ | LogInfo _
  | Called (ReplyText Transcript _) _ => True
  | _ => False
  end.

(** A trace without replies, error lines and chunker calls. *)
Record quiet (tr : trace) : Prop := {
  quiet_attempted : forall r, attempted r tr = [];
  quiet_delivered : forall r, delivered r tr = [];
  quiet_logged : logged_errors tr = [];
  quiet_chunker : chunker_rates tr = []
}.

(** What the [except] clause leaves for the exception [e], given what the
    reply raised, and how the handler then ends. *)
Definition handled (e : exn) (raised : option exn) : trace :=
  [LogError e; Called (ReplyText Error (exn_str e)) raised].

Definition ending (raised : option exn) : outcome unit :=
  match raised with
  | None => Ok tt
  | Some e' => Raise e'
  end.

(** A trace whose last event is a progress edit that raised [e], the only
    edit that failed. *)
Definition ends_with_failed_edit (e : exn) (tr : trace) : Prop :=
  edit_failures tr = [e] /\
  exists pre text m, tr = pre ++ [Called (EditMessageText text m) (Some e)].

(** The rate at which the buffer handed to the chunker was decoded. *)
Definition decodes_at (rate : Z) (tr : trace) : Prop :=
  Forall (fun sr => sr = rate) (decode_rates tr ++ chunker_rates tr).

(** The percentage after [done] of [num_chunks] chunks, [0] where the
    division fails. *)
Definition percent_value (done num_chunks : Z) : Z :=
  match percentage done num_chunks with
  | Ok p => p
  | Raise _ => 0
  end.

(** The percentages of a whole run over [n] chunks. *)
Definition progress_percentages (n : nat) : list Z :=
  List.map (fun k => percent_value (Z.of_nat k) (Z.of_nat n)) (List.seq 1 n).

(** Non-decreasing sequences. *)
Fixpoint nondecreasing (l : list Z) : Prop :=
  match l with
  | [] => True
  | x :: rest =>
      match rest with
      | [] => True
      | y :: _ => x <= y /\ nondecreasing rest
      end
  end.

(** ** A scripted platform for concrete runs

    The world counts the progress edits made so far. *)
Module Script.

Record scenario : Type := {
  download_error : option exn;
  chunker_result : outcome (list (list Z) * Z);
  edit_error : nat -> option exn;
  heard : list Z -> list pystr
}.

Definition of_option (o : option exn) : outcome unit :=
  match o with
  | None => Ok tt
  | Some e => Raise e
  end.

Definition scripted (s : scenario)
    : platform nat unit (list Z) (list Z) (list Z) (list Z) :=
  {| get_file := fun _ w => (w, Ok tt);
     download_to_drive := fun _ w => (w, of_option (download_error s));
     decode := fun _ w => (w, Ok [0; 0; 0; 0]);
     get_chunks := fun _ _ w => (w, chunker_result s);
     processor := fun c _ w => (w, Ok c);
     generate := fun f w => (w, Ok f);
     batch_decode := fun i w => (w, Ok (heard s i));
     reply_text := fun _ w => (w, Ok (Message 7 42));
     edit_message_text := fun _ _ w => (S w, of_option (edit_error s w));
     delete_message := fun _ w => (w, Ok tt) |}.

Definition request : update :=
  {| username := lit "alice"; voice_file_id := lit "voice-1" |}.

Definition timeout : exn := Exception "TimedOut" (lit "Timed out").
Definition bad_audio : exn := Exception "ValueError" (lit "empty audio").
Definition not_modified : exn :=
  Exception "BadRequest" (lit "Message is not modified").

(** Every chunk is heard as the word "hi " . *)
Definition hear_hi (_ : list Z) : list pystr := [lit "hi "].

(** Three chunks, every call succeeds. *)
Definition all_fine : scenario :=
  {| download_error := None;
     chunker_result := Ok ([[1]; [2]; [3]], 3);
     edit_error := fun _ => None;
     heard := hear_hi |}.

(** The download of the voice file fails. *)
Definition download_fails : scenario :=
  {| download_error := Some timeout;
     chunker_result := Ok ([[1]; [2]; [3]], 3);
     edit_error := fun _ => None;
     heard := hear_hi |}.

(** The chunker rejects the buffer. *)
Definition chunker_fails : scenario :=
  {| download_error := None;
     chunker_result := Raise bad_audio;
     edit_error := fun _ => None;
     heard := hear_hi |}.

(** The model hears every chunk; the second progress edit is refused. *)
Definition edit_fails : scenario :=
  {| download_error := None;
     chunker_result := Ok ([[1]; [2]; [3]], 3);
     edit_error := fun k => if Nat.eqb k 1 then Some not_modified else None;
     heard := hear_hi |}.

End Script.

(** ** The claims on the handler, as the specification words them *)
Section AsStated.
Context {world file audio chunk features ids : Type}.
Variable P : platform world file audio chunk features ids.

(** An exception in the Downloading, Chunking or Transcribing phase ends
    in exactly one error message with the description and in no piece of
    transcript; a failed download sends no progress message either. *)
Definition failure_reported (u : update) (w : world) : Prop :=
  forall ph e,
    failed_phase P u w = Some (ph, e) ->
    let tr := run_trace (stt P u w) in
    delivered Error tr = [exn_str e] /\
    delivered Transcript tr = [] /\
    (ph = Downloading -> attempted Progress tr = []).

(** With every chunk transcribed without error, a failed progress edit
    does not abort: the transcript is delivered and no error is sent. *)
Definition edit_failure_tolerated (u : update) (w : world) : Prop :=
  let tr := run_trace (stt P u w) in
  model_failures tr = [] ->
  edit_failures tr <> [] ->
  delivered Transcript tr <> [] /\ attempted Error tr = [].

(** *** The four ways a request can go

    The first line logged, then the events of each phase reached. *)
Definition hello (u : update) : event :=
  LogInfo (lit "stt called from " ++ username u).

Definition chunker_call (raised : option exn) : event :=
  Called (GetChunks librosa_default_sr) raised.

Definition progress_call (raised : option exn) : event :=
  Called (ReplyText Progress (progress_text 0)) raised.

Inductive stt_shape (u : update) (w : world) : Prop :=
| download_failed w' t1 e :
    failed_phase P u w = Some (Downloading, e) ->
    stt P u w = (w', [hello u] ++ t1, Raise e) ->
    Forall download_event t1 ->
    stt_shape u w
| chunking_failed w' t1 e raised :
    failed_phase P u w = Some (Chunking, e) ->
    stt P u w
    = (w', [hello u] ++ t1 ++ [chunker_call (Some e)] ++ handled e raised,
       ending raised) ->
    Forall download_event t1 ->
    stt_shape u w
| transcribing_failed w' t1 sent t3 e raised :
    failed_phase P u w = Some (Transcribing, e) ->
    stt P u w
    = (w', [hello u] ++ t1 ++ [chunker_call None; progress_call sent]
             ++ t3 ++ handled e raised,
       ending raised) ->
    Forall download_event t1 ->
    Forall loop_event t3 ->
    edit_failures t3 = [] \/ ends_with_failed_edit e t3 ->
    stt_shape u w
| transcribed w' t1 t3 t4 tail r :
    failed_phase P u w = None ->
    stt P u w
    = (w', [hello u] ++ t1 ++ [chunker_call None; progress_call None]
             ++ t3 ++ t4 ++ tail,
       r) ->
    Forall download_event t1 ->
    Forall loop_event t3 ->
    edit_failures t3 = [] ->
    Forall final_event t4 ->
    tail = [] \/ (exists e raised, tail = handled e raised) ->
    stt_shape u w.

End AsStated.

(** ** The rest of [utils.py] *)

(** *** [format_timedelta] *)
Module Timedelta.

(** A [datetime.timedelta]: Python keeps it normalised, with
    [0 <= seconds < 86400] and [0 <= microseconds < 1000000]; a negative
    duration has negative [days]. *)
Record timedelta : Type :=
  { days : Z; seconds : Z; microseconds : Z }.

Definition normalised (td : timedelta) : Prop :=
  0 <= seconds td < 86400 /\ 0 <= microseconds td < 1000000.

(** [divmod(a, b)]: the floor quotient and its remainder. *)
Definition divmod (a b : Z) : Z * Z := (a / b, a mod b).

(** [result.append(f"{n} unit")] under [if n > 0]. *)
Definition append_if_positive (result : list pystr) (n : Z) (unit_name : string)
    : list pystr :=
  if n >? 0 then result ++ [str_of_int n ++ lit " " ++ lit unit_name]
  else result.

Definition format_timedelta (td : timedelta) : pystr :=
  let days := days td in
  let '(hours, remainder) := divmod (seconds td) 3600 in
  let '(minutes, seconds) := divmod remainder 60 in
  let result := [] in
  let result := append_if_positive result days "days" in
  let result := append_if_positive result hours "hours" in
  let result := append_if_positive result minutes "minutes" in
  let result := append_if_positive result seconds "seconds" in
  join (lit " e ") result.

(** The four numbers [format_timedelta] looks at. *)
Definition components (td : timedelta) : Z * Z * Z * Z :=
  (days td, seconds td / 3600, (seconds td mod 3600) / 60,
   (seconds td mod 3600) mod 60).

(** One day, one hour, one minute and one second. *)
Definition a_day_and_more : timedelta :=
  {| days := 1; seconds := 3661; microseconds := 5 |}.

(** A list of parts that is printed as something: it starts with a part
    that is not empty. *)
Definition shows (result : list pystr) : Prop :=
  match result with
  | [] => False
  | p :: _ => p <> []
  end.

End Timedelta.

(** *** [get_message_info] *)
Module MessageInfo.

(** An attachment of a Telegram message, with its [file_id]. *)
Record attachment : Type := { file_id : pystr }.

(** The message of an update: [video_note] and [voice] are [None] when the
    message carries none. *)
Record tg_message : Type :=
  { video_note : option attachment; voice : option attachment }.

(** An update; [message] is [None] for updates that are not messages. *)
Record tg_update : Type := { message : option tg_message }.

Definition AttributeError (name : string) : exn :=
  Exception "AttributeError"
    (lit "'NoneType' object has no attribute '" ++ lit name ++ lit "'").

(** [obj.name] where [obj] may be [None]. *)
Definition attr {X Y : Type} (obj : option X) (name : string) (get : X -> Y)
    : outcome Y :=
  match obj with
  | Some x => Ok (get x)
  | None => Raise (AttributeError name)
  end.

Definition and_then {X Y : Type} (o : outcome X) (f : X -> outcome Y)
    : outcome Y :=
  match o with
  | Ok x => f x
  | Raise e => Raise e
  end.

(** [update.message.<field>.file_id] *)
Definition file_id_of (update : tg_update)
    (field : tg_message -> option attachment) (name : string)
    : outcome pystr :=
  and_then (attr (message update) name field)
    (fun a => attr a "file_id" file_id).

(** The [try] reads the video note; the [except AttributeError] clause
    reads the voice instead, and what that raises leaves the function. *)
Definition get_message_info (update : tg_update) : outcome (pystr * pystr) :=
  match file_id_of update video_note "video_note" with
  | Ok file_id => Ok (file_id, lit "video_note")
  | Raise _ =>
      match file_id_of update voice "voice" with
      | Ok file_id => Ok (file_id, lit "voice")
      | Raise e => Raise e
      end
  end.

End MessageInfo.

(** *** The windows of [detect_silence] *)
Module Windows.
Section WithSamples.
Context {A : Type} `{Sample A}.

(** The slices [audio[s : s + int(sr)]] the first loop sums, in order. *)
Definition windows (audio : list A) (sr : Z) : list (list A) :=
  match Silence.py_range 0 (Silence.alen audio) sr with
  | Ok starts => List.map (fun s => Silence.slice audio s (s + sr)) starts
  | Raise _ => []
  end.

(** The list [seconds] before it is reversed. *)
Definition energies (audio : list A) (sr : Z) : list A :=
  List.map Silence.abs_sum (windows audio sr).

(** [s < threshold] *)
Definition silent (threshold : A) (s : A) : Prop := s_ltb s threshold = true.

End WithSamples.
End Windows.

(** ** More to read in a trace of [stt] *)

(** The messages [delete_message] was called on. *)
Definition deletions (tr : trace) : list message :=
  List.flat_map (fun ev =>
    match ev with
    | Called (DeleteMessage m) _ => [m]
    | _ => []
    end) tr.

(** The messages [edit_message_text] was called on. *)
Definition edited (tr : trace) : list message :=
  List.flat_map (fun ev =>
    match ev with
    | Called (EditMessageText _ m) _ => [m]
    | _ => []
    end) tr.

(** The progress message and the decoded text with which the handler
    reaches line 140, when the first three phases raise nothing. *)
Section Reached.
Context {world file audio chunk features ids : Type}.
Variable P : platform world file audio chunk features ids.

Definition decoded (u : update) (w : world) : option (message * pystr) :=
  match downloading P u w with
  | (_, _, Raise _) => None
  | (w1, _, Ok a) =>
      match chunking P a w1 with
      | (_, _, Raise _) => None
      | (w2, _, Ok c) =>
          match transcribing P c w2 with
          | (_, _, Raise _) => None
          | (_, _, Ok t) => Some t
          end
      end
  end.

End Reached.

(** Each piece follows the one before only because its first word did not
    fit there. *)
Fixpoint tight (pieces : list pystr) : Prop :=
  match pieces with
  | [] => True
  | p :: rest =>
      match rest with
      | [] => True
      | q :: _ =>
          match split q with
          | w :: _ => 4096 < len p + len w + 1
          | [] => False
          end /\ tight rest
      end
  end.

(** ** Facts about [str.split] and [str.join] *)
Section SplitFacts.

Lemma len_app (a b : pystr) : len (a ++ b) = len a + len b.
Proof. unfold len. rewrite length_app. lia. Qed.

Lemma len_nonneg (a : pystr) : 0 <= len a.
Proof. unfold len. lia. Qed.

Lemma isspace_space : isspace space = true.
Proof. reflexivity. Qed.

(** A separator ends the word being scanned. *)
Lemma split_from_sep acc a sp b :
  isspace sp = true ->
  split_from acc (a ++ sp :: b) = split_from acc a ++ split b.
Proof.
  intros Hsp. revert acc.
  induction a as [|c a IH]; intros acc; simpl.
  - rewrite Hsp. reflexivity.
  - destruct (isspace c).
    + rewrite IH, app_assoc. reflexivity.
    + apply IH.
Qed.

Lemma split_sep a sp b :
  isspace sp = true -> split (a ++ sp :: b) = split a ++ split b.
Proof. apply split_from_sep. Qed.

(** Characters that are not separators extend the word being scanned. *)
Lemma split_from_nospace acc w :
  Forall (fun c => isspace c = false) w ->
  split_from acc w = flush (List.rev acc ++ w).
Proof.
  intros Hw. revert acc.
  induction Hw as [|c w Hc _ IH]; intros acc; simpl.
  - rewrite app_nil_r. reflexivity.
  - rewrite Hc, IH. simpl. rewrite <- app_assoc. reflexivity.
Qed.

Lemma split_word w : is_word w -> split w = [w].
Proof.
  intros [Hne Hw]. unfold split. rewrite split_from_nospace by assumption.
  simpl. destruct w; [contradiction|reflexivity].
Qed.

Lemma flush_words w :
  Forall (fun c => isspace c = false) w -> Forall is_word (flush w).
Proof.
  intros Hw. destruct w; constructor; [|constructor].
  split; [discriminate|assumption].
Qed.

Lemma split_from_words acc s :
  Forall (fun c => isspace c = false) acc ->
  Forall is_word (split_from acc s).
Proof.
  revert acc. induction s as [|c s IH]; intros acc Hacc; simpl.
  - apply flush_words, Forall_rev, Hacc.
  - destruct (isspace c) eqn:Hc.
    + apply Forall_app. split; [|apply IH; constructor].
      apply flush_words, Forall_rev, Hacc.
    + apply IH. constructor; assumption.
Qed.

(** Every element of [s.split()] is a word. *)
Lemma split_words s : Forall is_word (split s).
Proof. apply split_from_words. constructor. Qed.

(** Appending a space and a word appends that word to the words. *)
Lemma split_snoc_word cur word :
  is_word word -> split (cur ++ lit " " ++ word) = split cur ++ [word].
Proof.
  intros Hw. change (lit " " ++ word) with (space :: word).
  rewrite split_sep by reflexivity. rewrite (split_word word Hw). reflexivity.
Qed.

(** Splitting a join on a space splits every part. *)
Lemma split_join parts :
  split (join (lit " ") parts) = List.concat (List.map split parts).
Proof.
  induction parts as [|p [|q ps] IH].
  - reflexivity.
  - simpl. rewrite app_nil_r. reflexivity.
  - change (join (lit " ") (p :: q :: ps))
      with (p ++ space :: join (lit " ") (q :: ps)).
    rewrite split_sep by reflexivity. rewrite IH. reflexivity.
Qed.

Lemma join_snoc sep parts x :
  parts <> [] -> join sep (parts ++ [x]) = join sep parts ++ sep ++ x.
Proof.
  induction parts as [|p [|q ps] IH]; intros Hne.
  - contradiction.
  - reflexivity.
  - change (join sep ((p :: q :: ps) ++ [x]))
      with (p ++ sep ++ join sep ((q :: ps) ++ [x])).
    rewrite IH by discriminate. simpl. rewrite <- !app_assoc. reflexivity.
Qed.

End SplitFacts.

(** ** Facts about the text splitter *)
Section SplitStringFacts.

(** The two loops test the same condition. *)
Lemma flush_test_equiv (cur word : pystr) :
  (len cur + len word + 1 >? 4096) = (len cur + len word >? 4095).
Proof.
  destruct (Z.gtb_spec (len cur + len word + 1) 4096);
  destruct (Z.gtb_spec (len cur + len word) 4095); try reflexivity; lia.
Qed.

(** The list built by [bob_bot]'s loop is the sequence [utils]'s loop
    yields, after what was collected before. *)
Lemma split_loop_yields words result cur :
  BobBot.split_loop words result cur = result ++ Utils.split_loop words cur.
Proof.
  revert result cur.
  induction words as [|word rest IH]; intros result cur;
    cbn [BobBot.split_loop Utils.split_loop].
  - reflexivity.
  - rewrite flush_test_equiv.
    destruct (len cur + len word >? 4095).
    + rewrite IH, <- app_assoc. reflexivity.
    + apply IH.
Qed.

(** The words of the pieces are the words fed to the loop, in order. *)
Lemma split_loop_words words result cur :
  Forall is_word words ->
  List.concat (List.map split (BobBot.split_loop words result cur))
  = List.concat (List.map split result) ++ split cur ++ words.
Proof.
  intros Hw. revert result cur.
  induction Hw as [|word rest Hword _ IH]; intros result cur;
    cbn [BobBot.split_loop].
  - rewrite List.map_app, concat_app. simpl. rewrite !app_nil_r. reflexivity.
  - destruct (len cur + len word + 1 >? 4096).
    + rewrite IH, List.map_app, concat_app. simpl.
      rewrite (split_word word Hword), app_nil_r, <- app_assoc. reflexivity.
    + rewrite IH, (split_snoc_word cur word Hword), <- app_assoc. reflexivity.
Qed.

Lemma split_string_words s :
  List.concat (List.map split (BobBot.split_string s)) = split s.
Proof.
  unfold BobBot.split_string. destruct (len s <? 4096).
  - simpl. apply app_nil_r.
  - rewrite split_loop_words by apply split_words. reflexivity.
Qed.

(** Joined with single spaces, the pieces of the loop are the words, each
    after one space. *)
Lemma split_loop_join words result cur :
  join (lit " ") (BobBot.split_loop words result cur)
  = join (lit " ") (result ++ [cur])
    ++ List.flat_map (fun w => lit " " ++ w) words.
Proof.
  revert result cur.
  induction words as [|word rest IH]; intros result cur;
    cbn [BobBot.split_loop List.flat_map].
  - rewrite app_nil_r. reflexivity.
  - destruct (len cur + len word + 1 >? 4096).
    + rewrite IH. rewrite (join_snoc _ (result ++ [cur])).
      * rewrite <- !app_assoc. reflexivity.
      * destruct result; discriminate.
    + rewrite IH. destruct result as [|r result].
      * simpl. rewrite <- !app_assoc. reflexivity.
      * rewrite !join_snoc by discriminate. rewrite <- !app_assoc. reflexivity.
Qed.

(** A text of 4096 characters or more comes back as its words, each after
    one space: the first piece opens with a space the text need not have. *)
Lemma split_string_join_long s :
  4096 <= len s ->
  join (lit " ") (BobBot.split_string s)
  = List.flat_map (fun w => lit " " ++ w) (split s).
Proof.
  intros Hlen. unfold BobBot.split_string.
  destruct (Z.ltb_spec (len s) 4096); [lia|].
  rewrite split_loop_join. reflexivity.
Qed.

(** Pieces stay within 4096 characters when no word exceeds 4095. *)
Lemma split_loop_bound words result cur :
  Forall (fun w => len w <= 4095) words ->
  Forall (fun p => len p <= 4096) result ->
  len cur <= 4096 ->
  Forall (fun p => len p <= 4096) (BobBot.split_loop words result cur).
Proof.
  intros Hw. revert result cur.
  induction Hw as [|word rest Hword _ IH]; intros result cur Hres Hcur;
    cbn [BobBot.split_loop].
  - apply Forall_app. split; [assumption|]. constructor; [assumption|constructor].
  - destruct (Z.gtb_spec (len cur + len word + 1) 4096).
    + apply IH; [|lia].
      apply Forall_app. split; [assumption|]. constructor; [assumption|constructor].
    + apply IH; [assumption|].
      rewrite !len_app. change (len (lit " ")) with 1. lia.
Qed.

Lemma split_string_bound s :
  Forall (fun w => len w <= 4095) (split s) ->
  Forall (fun p => len p <= 4096) (BobBot.split_string s).
Proof.
  intros Hw. unfold BobBot.split_string.
  destruct (Z.ltb_spec (len s) 4096).
  - constructor; [lia|constructor].
  - apply split_loop_bound; [assumption|constructor|]. change (len []) with 0. lia.
Qed.

(** *** One-letter words *)

Lemma len_str_repeat p n : len (str_repeat p n) = Z.of_nat n * len p.
Proof.
  induction n as [|n IH]; [reflexivity|].
  cbn [str_repeat]. rewrite len_app, IH. lia.
Qed.

Lemma split_pairs n :
  split (str_repeat (lit "a ") n) = List.repeat (lit "a") n.
Proof.
  induction n as [|n IH]; [reflexivity|].
  cbn [str_repeat List.repeat].
  change (lit "a " ++ str_repeat (lit "a ") n)
    with (lit "a" ++ space :: str_repeat (lit "a ") n).
  rewrite split_sep by reflexivity. rewrite IH. reflexivity.
Qed.

(** While there is room the loop appends word after word. *)
Lemma split_loop_absorb k : forall rest result cur,
  len cur + 2 * Z.of_nat k <= 4096 ->
  BobBot.split_loop (List.repeat (lit "a") k ++ rest) result cur
  = BobBot.split_loop rest result (cur ++ str_repeat (lit " a") k).
Proof.
  induction k as [|k IH]; intros rest result cur Hroom.
  - cbn [List.repeat str_repeat app]. rewrite app_nil_r. reflexivity.
  - cbn [List.repeat str_repeat app BobBot.split_loop].
    change (len (lit "a")) with 1.
    destruct (Z.gtb_spec (len cur + 1 + 1) 4096); [lia|].
    rewrite IH.
    + rewrite <- !app_assoc. reflexivity.
    + rewrite !len_app. change (len (lit " ")) with 1.
      change (len (lit "a")) with 1. lia.
Qed.

(** A word that does not fit closes the piece and opens the next. *)
Lemma split_loop_flush rest result cur :
  4096 < len cur + 2 ->
  BobBot.split_loop (lit "a" :: rest) result cur
  = BobBot.split_loop rest (result ++ [cur]) (lit "a").
Proof.
  intros Hfull. cbn [BobBot.split_loop]. change (len (lit "a")) with 1.
  destruct (Z.gtb_spec (len cur + 1 + 1) 4096); [reflexivity|lia].
Qed.

Lemma split_string_pairs_8200 :
  BobBot.split_string pairs_8200
  = [str_repeat (lit " a") 2048;
     lit "a" ++ str_repeat (lit " a") 2047;
     lit "a" ++ str_repeat (lit " a") 3].
Proof.
  unfold BobBot.split_string, pairs_8200.
  rewrite len_str_repeat. change (Z.of_nat 4100 * len (lit "a ") <? 4096) with false.
  rewrite split_pairs.
  change (List.repeat (lit "a") 4100)
    with (List.repeat (lit "a") 2048
          ++ lit "a" :: List.repeat (lit "a") 2047
          ++ lit "a" :: List.repeat (lit "a") 3 ++ []).
  rewrite split_loop_absorb by (change (len []) with 0; lia).
  rewrite split_loop_flush
    by (rewrite len_app, len_str_repeat; change (len []) with 0;
        change (len (lit " a")) with 2; lia).
  rewrite split_loop_absorb by (change (len (lit "a")) with 1; lia).
  rewrite split_loop_flush
    by (rewrite len_app, len_str_repeat; change (len (lit "a")) with 1;
        change (len (lit " a")) with 2; lia).
  rewrite split_loop_absorb by (change (len (lit "a")) with 1; lia).
  reflexivity.
Qed.

(** C2.  The pieces are not all shorter than 4096 characters, as the
    docstring of [split_string] and the specification promise: on 8200
    characters of one-letter words and spaces both versions return three
    pieces, and the first has exactly 4096 characters. *)
Theorem split_string_piece_of_4096 :
  len pairs_8200 = 8200 /\
  List.map len (BobBot.split_string pairs_8200) = [4096; 4095; 7] /\
  List.map len (Utils.split_string pairs_8200) = [4096; 4095; 7].
Proof.
  assert (L : List.map len (BobBot.split_string pairs_8200) = [4096; 4095; 7]).
  { rewrite split_string_pairs_8200. cbn [List.map].
    rewrite !len_app, !len_str_repeat. reflexivity. }
  assert (E : Utils.split_string pairs_8200 = BobBot.split_string pairs_8200).
  { unfold BobBot.split_string, Utils.split_string.
    destruct (len pairs_8200 <? 4096); [reflexivity|].
    rewrite split_loop_yields. symmetry. apply app_nil_l. }
  split; [unfold pairs_8200; rewrite len_str_repeat; reflexivity|].
  split; [exact L|].
  rewrite E. exact L.
Qed.

(** A single word of 4096 characters or more is returned whole, after an
    empty piece. *)
Lemma split_string_oversized_word w :
  is_word w -> 4096 <= len w -> BobBot.split_string w = [[]; w].
Proof.
  intros Hw Hlen. unfold BobBot.split_string.
  destruct (Z.ltb_spec (len w) 4096); [lia|].
  rewrite (split_word w Hw). cbn [BobBot.split_loop].
  change (len []) with 0.
  destruct (Z.gtb_spec (0 + len w + 1) 4096); [reflexivity|lia].
Qed.

(** A text that opens with a character of a word has a word. *)
Lemma split_from_nonempty s : forall acc,
  acc <> [] -> split_from acc s <> [].
Proof.
  assert (Hflush : forall acc, acc <> [] -> flush (List.rev acc) <> []).
  { intros acc Hacc. destruct (List.rev acc) eqn:Hrev; [|discriminate].
    apply (f_equal (@List.rev char)) in Hrev.
    rewrite rev_involutive in Hrev. contradiction. }
  induction s as [|c s IH]; intros acc Hacc; cbn [split_from].
  - apply Hflush, Hacc.
  - destruct (isspace c).
    + specialize (Hflush acc Hacc).
      destruct (flush (List.rev acc)); [contradiction|discriminate].
    + apply IH. discriminate.
Qed.

(** Words after single spaces are a space and the words joined. *)
Lemma spaced_words_join (w : pystr) (ws : list pystr) :
  List.flat_map (fun x => lit " " ++ x) (w :: ws)
  = lit " " ++ join (lit " ") (w :: ws).
Proof.
  revert w. induction ws as [|v ws IH]; intros w.
  - cbn [List.flat_map join]. apply app_nil_r.
  - change (List.flat_map (fun x => lit " " ++ x) (w :: v :: ws))
      with ((lit " " ++ w)
            ++ List.flat_map (fun x => lit " " ++ x) (v :: ws)).
    rewrite IH. cbn [join]. rewrite <- !app_assoc. reflexivity.
Qed.

(** The pieces of a text of 4096 characters or more that opens with a
    character of a word do not give the text back, even with the runs of
    whitespace collapsed: put together they open with a space. *)
Lemma long_text_not_reconstructed c s :
  isspace c = false -> 4096 <= len (c :: s) ->
  ~ reconstructs (c :: s) (BobBot.split_string (c :: s)).
Proof.
  intros Hc Hlen Hrec. unfold reconstructs in Hrec.
  rewrite (split_string_join_long _ Hlen) in Hrec.
  assert (Hw : split (c :: s) <> []).
  { unfold split. cbn [split_from]. rewrite Hc.
    apply split_from_nonempty. discriminate. }
  destruct (split (c :: s)) as [|w ws]; [contradiction|].
  rewrite spaced_words_join in Hrec.
  unfold collapse_ws in Hrec.
  change (lit " " ++ join (lit " ") (w :: ws))
    with (space :: join (lit " ") (w :: ws)) in Hrec.
  cbn [collapse_from] in Hrec. rewrite isspace_space, Hc in Hrec.
  cbn [app] in Hrec. injection Hrec as Heq _.
  rewrite <- Heq in Hc. rewrite isspace_space in Hc. discriminate Hc.
Qed.



(** C10.  The list [bob_bot.split_string] returns is the sequence
    [utils.split_string] yields. *)
Theorem split_string_versions_agree (s : pystr) :
  BobBot.split_string s = Utils.split_string s.
Proof.
  unfold BobBot.split_string, Utils.split_string.
  destruct (len s <? 4096); [reflexivity|].
  apply split_loop_yields.
Qed.

End SplitStringFacts.

(** ** More about the text splitter *)
Section SplitStringMore.

Lemma len_cons c (l : pystr) : len (c :: l) = len l + 1.
Proof. unfold len. cbn [List.length]. lia. Qed.

Lemma split_from_lengths s : forall acc,
  Forall (fun w => len w <= len acc + len s) (split_from acc s).
Proof.
  assert (Hflush : forall acc n, len acc <= n ->
            Forall (fun w => len w <= n) (flush (List.rev acc))).
  { intros acc n Hn. unfold flush.
    destruct (List.rev acc) eqn:E; constructor; [|constructor].
    rewrite <- E. unfold len in *. rewrite length_rev. exact Hn. }
  induction s as [|c s IH]; intros acc; cbn [split_from].
  - apply Hflush. change (len []) with 0. lia.
  - pose proof (len_nonneg s) as Hs. pose proof (len_nonneg acc) as Ha.
    destruct (isspace c).
    + apply Forall_app. split.
      * apply Hflush. rewrite len_cons. lia.
      * eapply Forall_impl; [|apply (IH [])].
        intros w Hw. cbv beta in *. rewrite len_cons.
        change (len []) with 0 in Hw. lia.
    + eapply Forall_impl; [|apply (IH (c :: acc))].
      intros w Hw. cbv beta in *. rewrite len_cons in *. lia.
Qed.

(** No word is longer than the text it is taken from. *)
Lemma split_word_length s w : In w (split s) -> len w <= len s.
Proof.
  intros Hin. pose proof (split_from_lengths s []) as H.
  rewrite Forall_forall in H. specialize (H w Hin).
  change (len []) with 0 in H. lia.
Qed.

(** X1.  When no word of the text has more than 4095 characters, every
    piece of either version has at most 4096 characters: the bound the
    loop keeps is 4096, one more than the docstring says. *)
Theorem pieces_at_most_4096 (s : pystr) :
  Forall (fun w => len w <= 4095) (split s) ->
  Forall (fun p => len p <= 4096) (BobBot.split_string s) /\
  Forall (fun p => len p <= 4096) (Utils.split_string s).
Proof.
  intros Hw.
  assert (B : Forall (fun p => len p <= 4096) (BobBot.split_string s)).
  { unfold BobBot.split_string. destruct (Z.ltb_spec (len s) 4096).
    - constructor; [lia|constructor].
    - apply split_loop_bound; [exact Hw|constructor|].
      change (len []) with 0. lia. }
  split; [exact B|].
  replace (Utils.split_string s) with (BobBot.split_string s); [exact B|].
  unfold BobBot.split_string, Utils.split_string.
  destruct (len s <? 4096); [reflexivity|].
  rewrite split_loop_yields. reflexivity.
Qed.

(** X2.  Every word of the text lies whole in one of the pieces, so no
    splitting keeps the pieces shorter than the longest word: a word of
    4096 characters or more makes a piece of 4096 characters or more. *)
Theorem word_lies_in_a_piece (s w : pystr) :
  In w (split s) ->
  exists p, In p (BobBot.split_string s) /\ In w (split p) /\ len w <= len p.
Proof.
  intros Hin. rewrite <- split_string_words in Hin.
  apply in_concat in Hin. destruct Hin as (ws & Hws & Hw).
  apply in_map_iff in Hws. destruct Hws as (p & <- & Hp).
  exists p. split; [exact Hp|]. split; [exact Hw|].
  apply split_word_length, Hw.
Qed.

(** The piece being built only grows. *)
Lemma split_loop_nonempty words : forall result cur,
  Forall is_word words ->
  Forall (fun p => p <> []) result -> cur <> [] ->
  Forall (fun p => p <> []) (BobBot.split_loop words result cur).
Proof.
  induction words as [|word rest IH]; intros result cur Hw Hres Hcur;
    cbn [BobBot.split_loop].
  - apply Forall_app. split; [exact Hres|]. constructor; [exact Hcur|constructor].
  - inversion Hw as [|? ? Hword Hrest]; subst.
    destruct (len cur + len word + 1 >? 4096).
    + apply IH; [exact Hrest| |apply Hword].
      apply Forall_app. split; [exact Hres|]. constructor; [exact Hcur|constructor].
    + apply IH; [exact Hrest|exact Hres|].
      destruct cur; [contradiction|discriminate].
Qed.

(** X3.  Empty pieces.  A text of 4096 characters or more that is all
    whitespace comes back as one empty piece; one whose first word has
    4096 characters or more comes back with an empty first piece; and
    when the first word is shorter no piece is empty. *)
Theorem empty_pieces (s : pystr) :
  4096 <= len s ->
  match split s with
  | [] => BobBot.split_string s = [[]]
  | w :: ws =>
      if len w + 1 >? 4096
      then exists rest, BobBot.split_string s = [] :: rest
      else Forall (fun p => p <> []) (BobBot.split_string s)
  end.
Proof.
  intros Hlen. unfold BobBot.split_string.
  destruct (Z.ltb_spec (len s) 4096); [lia|].
  pose proof (split_words s) as Hw.
  destruct (split s) as [|w ws]; [reflexivity|].
  cbn [BobBot.split_loop]. change (len []) with 0. rewrite Z.add_0_l.
  destruct (len w + 1 >? 4096).
  - rewrite split_loop_yields. eexists. reflexivity.
  - inversion Hw; subst.
    apply split_loop_nonempty; [assumption|constructor|discriminate].
Qed.

(** X4.  What the pieces add up to.  A text under 4096 characters is its
    own single piece; for a longer one the pieces joined with single
    spaces are the words of the text, each after one space. *)
Theorem joined_pieces (s : pystr) :
  (len s < 4096 -> BobBot.split_string s = [s]) /\
  (4096 <= len s ->
   join (lit " ") (BobBot.split_string s)
   = List.flat_map (fun w => lit " " ++ w) (split s)).
Proof.
  unfold BobBot.split_string. split; intros Hlen.
  - destruct (Z.ltb_spec (len s) 4096); [reflexivity|lia].
  - destruct (Z.ltb_spec (len s) 4096); [lia|].
    rewrite split_loop_join. reflexivity.
Qed.

(** *** The pieces are full *)

Lemma tight_snoc l p q w ws :
  tight (l ++ [p]) -> split q = w :: ws -> 4096 < len p + len w + 1 ->
  tight (l ++ [p; q]).
Proof.
  intros Ht Hq Hfull. induction l as [|x l IH].
  - cbn [app tight]. rewrite Hq. split; [exact Hfull|exact I].
  - cbn [app] in *. destruct l as [|y l].
    + cbn [app tight] in *. split; [apply Ht|]. apply IH. exact I.
    + cbn [app tight] in *. split; [apply Ht|]. apply IH, Ht.
Qed.

Lemma tight_last l p p' :
  tight (l ++ [p]) -> List.hd_error (split p') = List.hd_error (split p) ->
  tight (l ++ [p']).
Proof.
  intros Ht Hhd. induction l as [|x l IH].
  - exact I.
  - cbn [app] in *. destruct l as [|y l].
    + cbn [app tight] in *. destruct Ht as [Ht _]. split; [|exact I].
      destruct (split p) as [|w ws]; [contradiction|].
      destruct (split p') as [|w' ws']; [discriminate|].
      injection Hhd as ->. exact Ht.
    + cbn [app tight] in *. split; [apply Ht|]. apply IH, Ht.
Qed.

Lemma split_loop_tight words : forall result cur,
  Forall is_word words ->
  tight (result ++ [cur]) ->
  result = [] \/ split cur <> [] ->
  tight (BobBot.split_loop words result cur).
Proof.
  induction words as [|word rest IH]; intros result cur Hw Ht Hcur;
    cbn [BobBot.split_loop].
  - exact Ht.
  - inversion Hw as [|? ? Hword Hrest]; subst.
    destruct (Z.gtb_spec (len cur + len word + 1) 4096) as [Hfull|Hroom].
    + apply IH; [exact Hrest| |].
      * rewrite <- app_assoc. cbn [app].
        apply (tight_snoc result cur word word []);
          [exact Ht|apply split_word, Hword|lia].
      * right. rewrite (split_word word Hword). discriminate.
    + apply IH; [exact Hrest| |].
      * destruct Hcur as [->|Hcur]; [exact I|].
        apply (tight_last result cur); [exact Ht|].
        rewrite (split_snoc_word cur word Hword).
        destruct (split cur); [contradiction|reflexivity].
      * destruct Hcur as [->|Hcur]; [left; reflexivity|right].
        rewrite (split_snoc_word cur word Hword).
        destruct (split cur); discriminate.
Qed.

(** X5.  The pieces are full: wherever one piece follows another, the first
    word of the second would have taken the first beyond 4096
    characters. *)
Theorem pieces_are_full (s : pystr) : tight (BobBot.split_string s).
Proof.
  unfold BobBot.split_string. destruct (len s <? 4096); [exact I|].
  apply split_loop_tight; [apply split_words|exact I|left; reflexivity].
Qed.

End SplitStringMore.

(** ** Facts about the double-precision model *)
Module B64Facts.
Import Binary64.

Lemma rhe_bounds n d : 0 < d ->
  n / d <= round_half_even n d <= n / d + 1.
Proof.
  intros Hd. unfold round_half_even.
  destruct (2 * (n mod d) <? d); [lia|].
  destruct (d <? 2 * (n mod d)); [lia|].
  destruct (Z.even (n / d)); lia.
Qed.

Lemma rhe_exact k d : 0 < d -> round_half_even (k * d) d = k.
Proof.
  intros Hd. unfold round_half_even.
  rewrite Z.mod_mul by lia. rewrite Z.div_mul by lia.
  replace (2 * 0 <? d) with true; [reflexivity|].
  symmetry. apply Z.ltb_lt. lia.
Qed.

Lemma div_cross_le n1 d1 n2 d2 :
  0 < d1 -> 0 < d2 -> n1 * d2 <= n2 * d1 -> n1 / d1 <= n2 / d2.
Proof.
  intros H1 H2 H.
  apply Z.div_le_lower_bound; [lia|].
  pose proof (Z.mul_div_le n1 d1 H1).
  assert (d1 * (d2 * (n1 / d1)) <= d1 * n2) by nia.
  nia.
Qed.

Lemma rhe_mono n1 d1 n2 d2 :
  0 < d1 -> 0 < d2 -> n1 * d2 <= n2 * d1 ->
  round_half_even n1 d1 <= round_half_even n2 d2.
Proof.
  intros H1 H2 H.
  pose proof (div_cross_le _ _ _ _ H1 H2 H) as Hq.
  pose proof (rhe_bounds n1 d1 H1) as B1.
  pose proof (rhe_bounds n2 d2 H2) as B2.
  destruct (Z.eq_dec (n1 / d1) (n2 / d2)) as [E|NE]; [|lia].
  pose proof (Z.div_mod n1 d1 ltac:(lia)) as M1.
  pose proof (Z.div_mod n2 d2 ltac:(lia)) as M2.
  pose proof (Z.mod_pos_bound n1 d1 H1) as P1.
  pose proof (Z.mod_pos_bound n2 d2 H2) as P2.
  assert (Hr : (n1 mod d1) * d2 <= (n2 mod d2) * d1).
  { rewrite E in M1. nia. }
  unfold round_half_even. rewrite E.
  destruct (Z.ltb_spec (2 * (n1 mod d1)) d1);
  destruct (Z.ltb_spec (2 * (n2 mod d2)) d2);
  destruct (Z.ltb_spec d1 (2 * (n1 mod d1)));
  destruct (Z.ltb_spec d2 (2 * (n2 mod d2)));
  destruct (Z.even (n2 / d2)); try lia; exfalso; nia.
Qed.

(** [2 ^ e] as the fraction [2 ^ max 0 e / 2 ^ max 0 (- e)], scaled. *)
Lemma pow2_pos e : 0 < 2 ^ Z.max 0 e.
Proof. apply Z.pow_pos_nonneg; lia. Qed.

Lemma pow2_scale e s : 0 <= s -> 0 <= e + s ->
  2 ^ Z.max 0 e * 2 ^ s = 2 ^ Z.max 0 (- e) * 2 ^ (e + s).
Proof.
  intros Hs Hes. rewrite <- !Z.pow_add_r by lia. f_equal. lia.
Qed.

(** Comparing [a * 2^e] with [b] amounts to comparing after scaling. *)
Lemma cross_scale_le a b e s : 0 <= s -> 0 <= e + s ->
  (a * 2 ^ Z.max 0 e <= b * 2 ^ Z.max 0 (- e) <->
   a * 2 ^ (e + s) <= b * 2 ^ s).
Proof.
  intros Hs Hes.
  pose proof (pow2_scale e s Hs Hes) as E.
  pose proof (pow2_pos e) as P1. pose proof (pow2_pos (- e)) as P2.
  assert (P3 : 0 < 2 ^ s) by (apply Z.pow_pos_nonneg; lia).
  assert (P4 : 0 < 2 ^ (e + s)) by (apply Z.pow_pos_nonneg; lia).
  set (p := 2 ^ Z.max 0 e) in *. set (q := 2 ^ Z.max 0 (- e)) in *.
  set (u := 2 ^ s) in *. set (v := 2 ^ (e + s)) in *.
  split; intros H.
  - assert (a * (p * u) <= b * q * u) by nia.
    rewrite E in H0. nia.
  - assert (a * (q * v) <= b * u * q) by nia.
    rewrite <- E in H0. nia.
Qed.

Lemma cross_scale_lt a b e s : 0 <= s -> 0 <= e + s ->
  (b * 2 ^ Z.max 0 (- e) < a * 2 ^ Z.max 0 e <->
   b * 2 ^ s < a * 2 ^ (e + s)).
Proof.
  intros Hs Hes. pose proof (cross_scale_le a b e s Hs Hes). lia.
Qed.

Lemma cross_scale_ge a b e s : 0 <= s -> 0 <= e + s ->
  (b * 2 ^ Z.max 0 (- e) <= a * 2 ^ Z.max 0 e <->
   b * 2 ^ s <= a * 2 ^ (e + s)).
Proof.
  intros Hs Hes.
  pose proof (pow2_scale e s Hs Hes) as E.
  pose proof (pow2_pos e) as P1. pose proof (pow2_pos (- e)) as P2.
  assert (P3 : 0 < 2 ^ s) by (apply Z.pow_pos_nonneg; lia).
  assert (P4 : 0 < 2 ^ (e + s)) by (apply Z.pow_pos_nonneg; lia).
  set (p := 2 ^ Z.max 0 e) in *. set (q := 2 ^ Z.max 0 (- e)) in *.
  set (u := 2 ^ s) in *. set (v := 2 ^ (e + s)) in *.
  split; intros H.
  - assert (b * q * u <= a * (p * u)) by nia.
    rewrite E in H0. nia.
  - assert (b * u * q <= a * (q * v)) by nia.
    rewrite <- E in H0. nia.
Qed.

(** [ilog2 n d] brackets [n / d] between two powers of two. *)
Lemma ilog2_spec n d s : 0 < n -> 0 < d -> 0 <= s -> 0 <= ilog2 n d + s ->
  d * 2 ^ (ilog2 n d + s) <= n * 2 ^ s /\
  n * 2 ^ s < d * 2 ^ (ilog2 n d + 1 + s).
Proof.
  intros Hn Hd Hs. unfold ilog2.
  pose proof (Z.log2_spec n Hn) as [An Bn].
  pose proof (Z.log2_spec d Hd) as [Ad Bd].
  pose proof (Z.log2_nonneg n) as Ln. pose proof (Z.log2_nonneg d) as Ld.
  set (a := Z.log2 n) in *. set (b := Z.log2 d) in *.
  assert (P3 : 0 < 2 ^ s) by (apply Z.pow_pos_nonneg; lia).
  destruct (Z.ltb_spec (n * 2 ^ Z.max 0 (- (a - b))) (d * 2 ^ Z.max 0 (a - b)))
    as [C|C]; intros HL.
  - apply (cross_scale_lt d n (a - b) s Hs) in C; [|lia].
    split.
    + assert (E : 2 ^ (b + 1) * 2 ^ (a - b - 1 + s) = 2 ^ a * 2 ^ s).
      { rewrite <- !Z.pow_add_r by lia. f_equal. lia. }
      assert (0 < 2 ^ (a - b - 1 + s)) by (apply Z.pow_pos_nonneg; lia).
      replace (Z.succ b) with (b + 1) in Bd by lia.
      nia.
    + replace (a - b - 1 + 1 + s) with (a - b + s) by lia. exact C.
  - apply (cross_scale_le d n (a - b) s Hs) in C; [|lia].
    split; [exact C|].
    assert (E : 2 ^ b * 2 ^ (a - b + 1 + s) = 2 ^ (a + 1) * 2 ^ s).
    { rewrite <- !Z.pow_add_r by lia. f_equal. lia. }
    assert (0 < 2 ^ (a - b + 1 + s)) by (apply Z.pow_pos_nonneg; lia).
    replace (Z.succ a) with (a + 1) in Bn by lia.
    nia.
Qed.

Lemma ilog2_mono n1 d1 n2 d2 :
  0 < n1 -> 0 < d1 -> 0 < n2 -> 0 < d2 -> n1 * d2 <= n2 * d1 ->
  ilog2 n1 d1 <= ilog2 n2 d2.
Proof.
  intros Hn1 Hd1 Hn2 Hd2 H.
  set (s := Z.max (- ilog2 n1 d1) (Z.max 0 (- ilog2 n2 d2))).
  destruct (ilog2_spec n1 d1 s Hn1 Hd1) as [A1 _]; [lia|lia|].
  destruct (ilog2_spec n2 d2 s Hn2 Hd2) as [_ B2]; [lia|lia|].
  assert (P : 0 < 2 ^ s) by (apply Z.pow_pos_nonneg; lia).
  assert (Hlt : 2 ^ (ilog2 n1 d1 + s) < 2 ^ (ilog2 n2 d2 + 1 + s)).
  { assert (0 < 2 ^ (ilog2 n1 d1 + s)) by (apply Z.pow_pos_nonneg; lia).
    assert (0 < 2 ^ (ilog2 n2 d2 + 1 + s)) by (apply Z.pow_pos_nonneg; lia).
    assert (d1 * d2 * 2 ^ (ilog2 n1 d1 + s) < d1 * d2 * 2 ^ (ilog2 n2 d2 + 1 + s)) by nia.
    nia. }
  apply Z.pow_lt_mono_r_iff in Hlt; lia.
Qed.

Lemma le_scaled x y s :
  0 <= s -> 0 <= expo x + s -> 0 <= expo y + s ->
  (le x y <-> mant x * 2 ^ (expo x + s) <= mant y * 2 ^ (expo y + s)).
Proof.
  intros Hs Hx Hy. unfold le, num, den.
  pose proof (pow2_scale (expo x) s Hs Hx) as Ex.
  pose proof (pow2_scale (expo y) s Hs Hy) as Ey.
  pose proof (pow2_pos (expo x)) as Px. pose proof (pow2_pos (- expo x)) as Qx.
  pose proof (pow2_pos (expo y)) as Py. pose proof (pow2_pos (- expo y)) as Qy.
  assert (Pu : 0 < 2 ^ s) by (apply Z.pow_pos_nonneg; lia).
  set (px := 2 ^ Z.max 0 (expo x)) in *. set (qx := 2 ^ Z.max 0 (- expo x)) in *.
  set (py := 2 ^ Z.max 0 (expo y)) in *. set (qy := 2 ^ Z.max 0 (- expo y)) in *.
  set (u := 2 ^ s) in *.
  set (vx := 2 ^ (expo x + s)) in *. set (vy := 2 ^ (expo y + s)) in *.
  assert (L : mant x * px * qy * u = (mant x * vx) * (qx * qy)).
  { replace (mant x * px * qy * u) with (mant x * (px * u) * qy) by ring.
    rewrite Ex. ring. }
  assert (R : mant y * py * qx * u = (mant y * vy) * (qx * qy)).
  { replace (mant y * py * qx * u) with (mant y * (py * u) * qx) by ring.
    rewrite Ey. ring. }
  assert (Pq : 0 < qx * qy) by (apply Z.mul_pos_pos; assumption).
  split; intros H.
  - apply (Z.mul_le_mono_pos_r _ _ (qx * qy) Pq). rewrite <- L, <- R.
    apply Z.mul_le_mono_nonneg_r; lia.
  - apply (Z.mul_le_mono_pos_r _ _ u Pu). rewrite L, R.
    apply Z.mul_le_mono_nonneg_r; lia.
Qed.

Lemma rhe_nonneg n d : 0 <= n -> 0 < d -> 0 <= round_half_even n d.
Proof.
  intros Hn Hd. pose proof (rhe_bounds n d Hd).
  pose proof (Z.div_pos n d Hn Hd). lia.
Qed.

Lemma round_pos_mant_nonneg n d : 0 <= n -> 0 < d -> 0 <= mant (round_pos n d).
Proof.
  intros Hn Hd. unfold round_pos.
  destruct (n =? 0); simpl; [lia|].
  apply rhe_nonneg.
  - pose proof (pow2_pos (- ulp_exp n d)). nia.
  - pose proof (pow2_pos (ulp_exp n d)). nia.
Qed.

Lemma pow2_add a b : 0 <= a -> 0 <= b -> 2 ^ a * 2 ^ b = 2 ^ (a + b).
Proof. intros Ha Hb. symmetry. apply Z.pow_add_r; assumption. Qed.

(** A value of at most [2 ^ L] has a mantissa of at most [2 ^ (L - e)]. *)
Lemma mant_le_pivot n d e L s :
  0 < d -> 0 <= s -> 0 <= e + s -> e <= L ->
  n * 2 ^ s <= d * 2 ^ (L + s) ->
  round_half_even (n * 2 ^ Z.max 0 (- e)) (d * 2 ^ Z.max 0 e) <= 2 ^ (L - e).
Proof.
  intros Hd Hs Hes HeL Hle.
  pose proof (pow2_pos e) as Pe.
  assert (D : 0 < d * 2 ^ Z.max 0 e) by (apply Z.mul_pos_pos; assumption).
  rewrite <- (rhe_exact (2 ^ (L - e)) (d * 2 ^ Z.max 0 e) D).
  apply rhe_mono; [exact D|exact D|].
  assert (C : n * 2 ^ Z.max 0 (- e) <= (d * 2 ^ (L - e)) * 2 ^ Z.max 0 e).
  { apply (cross_scale_ge (d * 2 ^ (L - e)) n e s Hs Hes).
    rewrite <- Z.mul_assoc, pow2_add by lia.
    replace (L - e + (e + s)) with (L + s) by lia. exact Hle. }
  set (p := 2 ^ Z.max 0 e) in *. set (q := 2 ^ Z.max 0 (- e)) in *.
  set (K := 2 ^ (L - e)) in *. clearbody p q K.
  replace (K * (d * p) * (d * p)) with (d * K * p * (d * p)) by ring.
  apply Z.mul_le_mono_nonneg_r; [|exact C].
  apply Z.lt_le_incl, D.
Qed.

(** A value of at least [2 ^ (e + 52)] has a mantissa of at least
    [2 ^ 52]. *)
Lemma mant_ge_normal n d e s :
  0 < d -> 0 <= s -> 0 <= e + s ->
  d * 2 ^ (e + 52 + s) <= n * 2 ^ s ->
  2 ^ 52 <= round_half_even (n * 2 ^ Z.max 0 (- e)) (d * 2 ^ Z.max 0 e).
Proof.
  intros Hd Hs Hes Hle.
  pose proof (pow2_pos e) as Pe.
  assert (D : 0 < d * 2 ^ Z.max 0 e) by (apply Z.mul_pos_pos; assumption).
  rewrite <- (rhe_exact (2 ^ 52) (d * 2 ^ Z.max 0 e) D).
  apply rhe_mono; [exact D|exact D|].
  assert (C : (2 ^ 52 * d) * 2 ^ Z.max 0 e <= n * 2 ^ Z.max 0 (- e)).
  { apply (cross_scale_le (2 ^ 52 * d) n e s Hs Hes).
    replace (2 ^ 52 * d * 2 ^ (e + s)) with (d * (2 ^ 52 * 2 ^ (e + s))) by ring.
    rewrite pow2_add by lia.
    replace (52 + (e + s)) with (e + 52 + s) by lia. exact Hle. }
  set (p := 2 ^ Z.max 0 e) in *. set (q := 2 ^ Z.max 0 (- e)) in *.
  clearbody p q.
  replace (2 ^ 52 * (d * p) * (d * p)) with (2 ^ 52 * d * p * (d * p)) by ring.
  apply Z.mul_le_mono_nonneg_r; [|exact C].
  apply Z.lt_le_incl, D.
Qed.

(** Rounding to the nearest double is monotone. *)
Lemma round_pos_mono n1 d1 n2 d2 :
  0 <= n1 -> 0 < d1 -> 0 < d2 -> n1 * d2 <= n2 * d1 ->
  le (round_pos n1 d1) (round_pos n2 d2).
Proof.
  intros Hn1 Hd1 Hd2 H.
  assert (Hn2 : 0 <= n2).
  { apply Z.nlt_ge. intros Hneg.
    pose proof (Z.mul_neg_pos _ _ Hneg Hd1).
    pose proof (Z.mul_nonneg_nonneg _ _ Hn1 (Z.lt_le_incl _ _ Hd2)). lia. }
  destruct (Z.eq_dec n1 0) as [Z1|NZ1].
  { pose proof (round_pos_mant_nonneg n2 d2 Hn2 Hd2) as M.
    subst n1. unfold le. cbn [round_pos Z.eqb num den mant expo].
    rewrite !Z.mul_0_l.
    apply Z.mul_nonneg_nonneg; [|apply Z.lt_le_incl, pow2_pos].
    apply Z.mul_nonneg_nonneg; [exact M|apply Z.lt_le_incl, pow2_pos]. }
  assert (Hp1 : 0 < n1) by lia.
  assert (Hp2 : 0 < n2).
  { apply Z.nle_gt. intros Hle. assert (n2 = 0) by lia. subst n2.
    rewrite Z.mul_0_l in H.
    pose proof (Z.mul_pos_pos _ _ Hp1 Hd2). lia. }
  unfold round_pos.
  destruct (Z.eqb_spec n1 0) as [|_]; [lia|].
  destruct (Z.eqb_spec n2 0) as [|_]; [lia|].
  pose proof (ilog2_mono _ _ _ _ Hp1 Hd1 Hp2 Hd2 H) as HL.
  pose proof (fun s => ilog2_spec n1 d1 s Hp1 Hd1) as S1.
  pose proof (fun s => ilog2_spec n2 d2 s Hp2 Hd2) as S2.
  unfold ulp_exp.
  set (L1 := ilog2 n1 d1) in *. set (L2 := ilog2 n2 d2) in *.
  clearbody L1 L2.
  set (e1 := Z.max (L1 - 52) emin). set (e2 := Z.max (L2 - 52) emin).
  assert (E1 : e1 = Z.max (L1 - 52) (-1074)) by reflexivity.
  assert (E2 : e2 = Z.max (L2 - 52) (-1074)) by reflexivity.
  clearbody e1 e2.
  destruct (Z.eq_dec e1 e2) as [Eq|Ne].
  - (* the same spacing *)
    rewrite <- Eq.
    pose proof (pow2_pos e1) as Pe1. pose proof (pow2_pos (- e1)) as Qe1.
    assert (M : round_half_even (n1 * 2 ^ Z.max 0 (- e1)) (d1 * 2 ^ Z.max 0 e1)
                <= round_half_even (n2 * 2 ^ Z.max 0 (- e1)) (d2 * 2 ^ Z.max 0 e1)).
    { apply rhe_mono; [apply Z.mul_pos_pos; assumption
                      |apply Z.mul_pos_pos; assumption|].
      set (p := 2 ^ Z.max 0 e1) in *. set (q := 2 ^ Z.max 0 (- e1)) in *.
      clearbody p q.
      replace (n1 * q * (d2 * p)) with (n1 * d2 * (p * q)) by ring.
      replace (n2 * q * (d1 * p)) with (n2 * d1 * (p * q)) by ring.
      apply Z.mul_le_mono_nonneg_r; [|exact H].
      apply Z.lt_le_incl, Z.mul_pos_pos; assumption. }
    unfold le, num, den; cbn [mant expo].
    apply Z.mul_le_mono_nonneg_r; [lia|].
    apply Z.mul_le_mono_nonneg_r; [lia|exact M].
  - (* the larger value lies in a higher binade: compare with 2 ^ L2 *)
    assert (Hlt : e1 < e2) by (clear - E1 E2 Ne HL; lia).
    assert (HL12 : L1 + 1 <= L2) by (clear - E1 E2 Hlt; lia).
    assert (He2 : e2 = L2 - 52) by (clear - E1 E2 Hlt; lia).
    set (s := Z.max 1074 (Z.max (- L1) (- L2))).
    assert (Hs : 0 <= s) by (clear; lia).
    assert (Hs1 : 0 <= e1 + s) by (clear - E1; lia).
    assert (Hs2 : 0 <= e2 + s) by (clear - E2; lia).
    assert (HsL1 : 0 <= L1 + s) by (clear; lia).
    assert (HsL2 : 0 <= L2 + s) by (clear; lia).
    clearbody s.
    destruct (S1 s Hs HsL1) as [_ B1]. destruct (S2 s Hs HsL2) as [A2 _].
    clear S1 S2.
    assert (Hpiv : 2 ^ (L1 + 1 + s) <= 2 ^ (L2 + s))
      by (apply Z.pow_le_mono_r; [lia|clear - HL12; lia]).
    assert (M1 : round_half_even (n1 * 2 ^ Z.max 0 (- e1)) (d1 * 2 ^ Z.max 0 e1)
                 <= 2 ^ (L2 - e1)).
    { apply (mant_le_pivot n1 d1 e1 L2 s Hd1 Hs Hs1); [clear - He2 Hlt; lia|].
      apply Z.lt_le_incl. eapply Z.lt_le_trans; [exact B1|].
      apply Z.mul_le_mono_nonneg_l; [apply Z.lt_le_incl, Hd1|exact Hpiv]. }
    assert (M2 : 2 ^ 52 <= round_half_even (n2 * 2 ^ Z.max 0 (- e2))
                             (d2 * 2 ^ Z.max 0 e2)).
    { apply (mant_ge_normal n2 d2 e2 s Hd2 Hs Hs2).
      replace (e2 + 52 + s) with (L2 + s) by (clear - He2; lia). exact A2. }
    apply (le_scaled _ _ s Hs); cbn [mant expo]; [exact Hs1|exact Hs2|].
    assert (Ep1 : 2 ^ (L2 - e1) * 2 ^ (e1 + s) = 2 ^ (L2 + s)).
    { rewrite pow2_add by (clear - He2 Hlt Hs1; lia).
      f_equal. clear; lia. }
    assert (Ep2 : 2 ^ 52 * 2 ^ (e2 + s) = 2 ^ (L2 + s)).
    { rewrite pow2_add by (clear - Hs2; lia). f_equal. clear - He2; lia. }
    assert (V1 : 0 <= 2 ^ (e1 + s)) by (apply Z.pow_nonneg; lia).
    assert (V2 : 0 <= 2 ^ (e2 + s)) by (apply Z.pow_nonneg; lia).
    transitivity (2 ^ (L2 + s)); [rewrite <- Ep1|rewrite <- Ep2];
      apply Z.mul_le_mono_nonneg_r; assumption.
Qed.

Lemma round_nonneg n d : 0 <= n -> 0 < d -> round n d = round_pos n d.
Proof.
  intros Hn Hd. unfold round.
  rewrite (Z.abs_eq n Hn), (Z.abs_eq d) by lia.
  destruct (Z.eq_dec n 0) as [->|NZ].
  - reflexivity.
  - replace (Z.sgn n) with 1 by (symmetry; apply Z.sgn_pos; lia).
    replace (Z.sgn d) with 1 by (symmetry; apply Z.sgn_pos; lia).
    rewrite !Z.mul_1_l. destruct (round_pos n d) as [m e]. reflexivity.
Qed.

Lemma num_nonneg x : 0 <= mant x -> 0 <= num x.
Proof. intros H. unfold num. pose proof (pow2_pos (expo x)). nia. Qed.

Lemma den_pos x : 0 < den x.
Proof. apply pow2_pos. Qed.

Lemma le_num_nonneg x y : 0 <= mant x -> le x y -> 0 <= num y.
Proof.
  intros Hx Hxy. pose proof (num_nonneg x Hx) as Nx.
  pose proof (den_pos x) as Dx. pose proof (den_pos y) as Dy.
  unfold le in Hxy. apply Z.nlt_ge. intros Hneg.
  pose proof (Z.mul_neg_pos _ _ Hneg Dx).
  pose proof (Z.mul_nonneg_nonneg _ _ Nx (Z.lt_le_incl _ _ Dy)). lia.
Qed.

Lemma le_mant_nonneg x y : 0 <= mant x -> le x y -> 0 <= mant y.
Proof.
  intros Hx Hxy. pose proof (le_num_nonneg x y Hx Hxy) as Ny.
  unfold num in Ny. pose proof (pow2_pos (expo y)) as P.
  apply Z.nlt_ge. intros Hneg. pose proof (Z.mul_neg_pos _ _ Hneg P). lia.
Qed.

(** Multiplication by a non-negative double is monotone. *)
Lemma mul_mono_l x y c :
  0 <= mant x -> 0 <= mant c -> le x y -> le (mul x c) (mul y c).
Proof.
  intros Hx Hc Hxy. unfold mul.
  pose proof (num_nonneg x Hx) as Nx. pose proof (num_nonneg c Hc) as Nc.
  pose proof (den_pos x) as Dx. pose proof (den_pos y) as Dy.
  pose proof (den_pos c) as Dc.
  pose proof (le_num_nonneg x y Hx Hxy) as Ny.
  rewrite !round_nonneg by nia.
  apply round_pos_mono; try nia.
  unfold le in Hxy.
  replace (num x * num c * (den y * den c))
    with (num x * den y * (num c * den c)) by ring.
  replace (num y * num c * (den x * den c))
    with (num y * den x * (num c * den c)) by ring.
  apply Z.mul_le_mono_nonneg_r; nia.
Qed.

Lemma mul_mant_nonneg x c : 0 <= mant x -> 0 <= mant c -> 0 <= mant (mul x c).
Proof.
  intros Hx Hc. unfold mul.
  pose proof (num_nonneg x Hx). pose proof (num_nonneg c Hc).
  pose proof (den_pos x). pose proof (den_pos c).
  rewrite round_nonneg by nia. apply round_pos_mant_nonneg; nia.
Qed.

(** [int(x)] is the floor of a non-negative double, and is monotone. *)
Lemma to_int_floor x : 0 <= mant x -> to_int x = num x / den x.
Proof.
  intros H. unfold to_int. apply Z.quot_div_nonneg.
  - apply num_nonneg, H.
  - apply den_pos.
Qed.

Lemma to_int_mono x y : 0 <= mant x -> le x y -> to_int x <= to_int y.
Proof.
  intros Hx Hxy.
  pose proof (le_mant_nonneg x y Hx Hxy) as Hy.
  rewrite !to_int_floor by assumption.
  apply div_cross_le; try apply den_pos. exact Hxy.
Qed.

(** Rounding never moves [int(x)] by more than one. *)
Lemma py_round_near_to_int x :
  0 <= mant x -> to_int x <= py_round x <= to_int x + 1.
Proof.
  intros H. rewrite to_int_floor by assumption. unfold py_round.
  pose proof (num_nonneg x H) as Hn. rewrite (Z.abs_eq _ Hn).
  pose proof (rhe_bounds (num x) (den x) (den_pos x)) as B.
  destruct (Z.eq_dec (mant x) 0) as [E|NE].
  - rewrite E. simpl.
    assert (num x = 0) by (unfold num; rewrite E; reflexivity).
    rewrite H0. rewrite Z.div_0_l by (pose proof (den_pos x); lia). lia.
  - replace (Z.sgn (mant x)) with 1 by (symmetry; apply Z.sgn_pos; lia). lia.
Qed.

Lemma ilog2_diag n : 0 < n -> ilog2 n n = 0.
Proof.
  intros Hn. unfold ilog2. rewrite Z.sub_diag. simpl.
  rewrite Z.ltb_irrefl. reflexivity.
Qed.

(** [n / n] is exactly [1.0]. *)
Lemma round_pos_diag n : 0 < n -> round_pos n n = Float (2 ^ 52) (-52).
Proof.
  intros Hn. unfold round_pos, ulp_exp.
  destruct (Z.eqb_spec n 0); [lia|].
  rewrite (ilog2_diag n Hn).
  change (Z.max (0 - 52) emin) with (-52).
  change (Z.max 0 (- -52)) with 52. change (Z.max 0 (-52)) with 0.
  rewrite Z.pow_0_r, Z.mul_1_r.
  rewrite (Z.mul_comm n). rewrite rhe_exact by lia. reflexivity.
Qed.

(** A non-zero integer converts to a non-zero double. *)
Lemma round_pos_int_mant_pos n : 0 < n -> 0 < mant (round_pos n 1).
Proof.
  intros Hn. unfold round_pos.
  destruct (Z.eqb_spec n 0); [lia|]. cbn [mant].
  set (e := ulp_exp n 1).
  pose proof (pow2_pos e) as Pe. pose proof (pow2_pos (- e)) as Qe.
  assert (D : 0 < 1 * 2 ^ Z.max 0 e) by lia.
  pose proof (rhe_exact 1 (1 * 2 ^ Z.max 0 e) D) as R.
  enough (M : round_half_even (1 * (1 * 2 ^ Z.max 0 e)) (1 * 2 ^ Z.max 0 e)
              <= round_half_even (n * 2 ^ Z.max 0 (- e)) (1 * 2 ^ Z.max 0 e))
    by lia.
  apply rhe_mono; [exact D|exact D|].
  apply Z.mul_le_mono_nonneg_r; [lia|].
  rewrite !Z.mul_1_l.
  destruct (Z.le_gt_cases e 0) as [Le|Gt].
  - replace (Z.max 0 e) with 0 by lia. rewrite Z.pow_0_r. nia.
  - assert (HL : e = ilog2 n 1 - 52) by (unfold e, ulp_exp, emin in *; lia).
    destruct (ilog2_spec n 1 0 Hn) as [A _]; try lia.
    rewrite Z.pow_0_r, Z.add_0_r, Z.mul_1_l, Z.mul_1_r in A.
    replace (Z.max 0 e) with e by lia.
    assert (2 ^ e <= 2 ^ ilog2 n 1) by (apply Z.pow_le_mono_r; lia).
    nia.
Qed.

Lemma of_int_mant_nonzero n : n <> 0 -> mant (of_int n) <> 0.
Proof.
  intros Hn. unfold of_int, round. cbn [mant]. change (Z.abs 1) with 1.
  change (Z.sgn 1) with 1.
  pose proof (round_pos_int_mant_pos (Z.abs n) ltac:(lia)) as M.
  destruct (Z.sgn_spec n) as [[? E]|[[? E]|[? E]]]; rewrite E; lia.
Qed.

End B64Facts.

(** ** Facts about the progress percentage *)
Section PercentageFacts.
Import Binary64 B64Facts.

Lemma of_int_100 : of_int 100 = Float 7036874417766400 (-46).
Proof. vm_compute. reflexivity. Qed.

(** On a positive chunk count the percentage is computed, as the floor of
    the rounded product. *)
Lemma percentage_ok i n : 0 <= i -> 0 < n ->
  percentage i n = Ok (to_int (mul (round_pos i n) (of_int 100))).
Proof.
  intros Hi Hn. unfold percentage, int_true_div.
  destruct (Z.eqb_spec n 0); [lia|].
  rewrite round_nonneg by lia. reflexivity.
Qed.

Lemma percentage_mono i j n a b :
  0 <= i <= j -> 0 < n ->
  percentage i n = Ok a -> percentage j n = Ok b -> a <= b.
Proof.
  intros Hij Hn Ha Hb.
  rewrite percentage_ok in Ha, Hb by lia.
  injection Ha as <-. injection Hb as <-.
  assert (M100 : 0 <= mant (of_int 100)) by (rewrite of_int_100; simpl; lia).
  apply to_int_mono.
  - apply mul_mant_nonneg; [apply round_pos_mant_nonneg; lia|exact M100].
  - apply mul_mono_l; [apply round_pos_mant_nonneg; lia|exact M100|].
    apply round_pos_mono; try lia. nia.
Qed.

Lemma percentage_full n : 0 < n -> percentage n n = Ok 100.
Proof.
  intros Hn. rewrite percentage_ok by lia.
  rewrite round_pos_diag by lia. vm_compute. reflexivity.
Qed.

(** The model computes what the hardware computes, for every count of
    chunks up to 16. *)
Lemma percentage_model_is_hardware : agrees_up_to 16 = true.
Proof. vm_compute. reflexivity. Qed.

(** Truncation shows: 29 chunks of 100 are reported as 28 per cent. *)
Lemma percentage_29_of_100 : percentage 29 100 = Ok 28.
Proof. vm_compute. reflexivity. Qed.

End PercentageFacts.

(** ** Facts about the silence detector *)
Section SilenceFacts.
Import Binary64 B64Facts Silence.
Context {A : Type} `{Sample A}.

(** The duration is computed whenever the rate is not zero. *)
Lemma get_duration_ok (audio : list A) sr :
  sr <> 0 -> exists d, get_duration audio sr = Ok d.
Proof.
  intros Hsr. unfold get_duration, div.
  destruct (Z.eqb_spec (mant (of_int sr)) 0) as [E|_].
  - exfalso. exact (of_int_mant_nonzero sr Hsr E).
  - eexists. reflexivity.
Qed.

Lemma div_1000_ok x : exists y, div x (of_int 1000) = Ok y.
Proof. unfold div. eexists. reflexivity. Qed.

Lemma range_length_windows n sr :
  0 <= n -> 0 < sr -> range_length 0 n sr = window_count n sr.
Proof.
  intros Hn Hsr. unfold range_length, window_count.
  destruct (Z.ltb_spec 0 sr); [|lia].
  destruct (Z.ltb_spec 0 n).
  - replace (n + sr - 1) with (n - 0 - 1 + 1 * sr) by lia.
    rewrite Z.div_add by lia. reflexivity.
  - replace n with 0 by lia. simpl.
    symmetry. apply Z.div_small. lia.
Qed.

Lemma window_count_nonneg n sr : 0 <= n -> 0 < sr -> 0 <= window_count n sr.
Proof. intros Hn Hsr. unfold window_count. apply Z.div_pos; lia. Qed.

(** With a window of one second the specification's count is the
    quotient of the length by the rate. *)
Lemma spec_silent_count_one_second n sr :
  0 < sr -> spec_silent_count n sr 1 = n / sr.
Proof.
  intros Hsr. unfold spec_silent_count, Qdiv, Qinv, Qmult, Qfloor. simpl.
  rewrite Z.mul_1_r, Pos.mul_1_r, Z2Pos.id by lia. reflexivity.
Qed.

(** The number of windows is the quotient on whole windows only. *)
Lemma window_count_whole_iff n sr :
  0 < sr -> (window_count n sr = n / sr <-> n mod sr = 0).
Proof.
  intros Hsr. unfold window_count.
  pose proof (Z.div_mod n sr ltac:(lia)) as E.
  pose proof (Z.mod_pos_bound n sr Hsr) as B.
  set (q := n / sr) in *. set (r := n mod sr) in *.
  replace (n + sr - 1) with ((r + sr - 1) + q * sr) by lia.
  rewrite Z.div_add by lia.
  destruct (Z.eq_dec r 0) as [Z0|NZ].
  - rewrite Z0. simpl. rewrite Z.div_small by lia. split; lia.
  - replace (r + sr - 1) with ((r - 1) + 1 * sr) by lia.
    rewrite Z.div_add by lia. rewrite Z.div_small by lia. split; lia.
Qed.

Section ZeroLaws.
Hypothesis abs_zero : s_abs s_zero = s_zero.
Hypothesis add_zero : s_add s_zero s_zero = s_zero.

Lemma fold_zero (l : list A) : all_zero l -> List.fold_left s_add l s_zero = s_zero.
Proof.
  induction 1 as [|x l Hx _ IH]; simpl; [reflexivity|].
  rewrite Hx, add_zero. exact IH.
Qed.

Lemma abs_sum_zero (window : list A) : all_zero window -> abs_sum window = s_zero.
Proof.
  intros Hz. unfold abs_sum. apply fold_zero.
  induction Hz as [|x l Hx _ IH]; simpl; constructor; [|exact IH].
  rewrite Hx. exact abs_zero.
Qed.

Lemma all_zero_firstn n (l : list A) : all_zero l -> all_zero (List.firstn n l).
Proof.
  intros Hz. revert n. induction Hz as [|x l Hx _ IH]; intros [|n]; simpl;
    constructor; [exact Hx|apply IH].
Qed.

Lemma all_zero_skipn n (l : list A) : all_zero l -> all_zero (List.skipn n l).
Proof.
  intros Hz. revert n. induction Hz as [|x l Hx Hl IH]; intros [|n]; simpl.
  - constructor.
  - constructor.
  - constructor; assumption.
  - apply IH.
Qed.

Lemma slice_zero (audio : list A) lo hi : all_zero audio -> all_zero (slice audio lo hi).
Proof. intros Hz. unfold slice. apply all_zero_firstn, all_zero_skipn, Hz. Qed.

Lemma count_silent_zero (seconds : list A) threshold count :
  s_ltb s_zero threshold = true -> all_zero seconds ->
  count_silent seconds threshold count = count + Z.of_nat (List.length seconds).
Proof.
  intros Hpos Hz. revert count.
  induction Hz as [|x l Hx _ IH]; intros count; simpl count_silent.
  - simpl. lia.
  - rewrite Hx, Hpos, IH. simpl List.length. lia.
Qed.

(** C8, as the code has it.  On an all-zero buffer, with a positive rate
    and a positive threshold, [detect_silence] returns the number of
    windows of [sr] samples that cover the buffer, the last, shorter one
    included: the quotient of the length by [sr] rounded up.  That is the
    specification's [floor(d / window_size)], for a window of one second,
    exactly when the length is a multiple of [sr]. *)
Theorem detect_silence_all_zero (audio : list A) (sr : Z) (threshold : A) :
  all_zero audio -> 0 < sr -> s_ltb s_zero threshold = true ->
  (exists d,
     detect_silence audio sr threshold = Ok (window_count (alen audio) sr, d))
  /\ (window_count (alen audio) sr = spec_silent_count (alen audio) sr 1
      <-> alen audio mod sr = 0).
Proof.
  intros Hz Hsr Hpos.
  split; [|rewrite spec_silent_count_one_second by exact Hsr;
           apply window_count_whole_iff, Hsr].
  unfold detect_silence.
  destruct (get_duration_ok audio sr ltac:(lia)) as [d ->].
  unfold py_range. destruct (Z.eqb_spec sr 0); [lia|].
  destruct (div_1000_ok (mul d (of_int 1000))) as [y ->].
  exists y. f_equal. f_equal.
  rewrite count_silent_zero.
  - rewrite length_rev, !length_map, length_seq.
    rewrite range_length_windows by (unfold alen; lia).
    pose proof (window_count_nonneg (alen audio) sr ltac:(unfold alen; lia) Hsr).
    lia.
  - exact Hpos.
  - unfold all_zero. apply Forall_rev. rewrite Forall_map.
    rewrite Forall_forall. intros s _.
    apply abs_sum_zero, slice_zero, Hz.
Qed.

End ZeroLaws.

(** C7, as the code has it.  On an empty buffer, with a rate that is not
    zero, [detect_silence] raises nothing: it returns no silent window and
    the duration [0.0]. *)
Theorem detect_silence_empty (sr : Z) (threshold : A) :
  sr <> 0 ->
  detect_silence ([] : list A) sr threshold = Ok (0, Float 0 emin).
Proof.
  intros Hsr. unfold detect_silence, get_duration, div.
  destruct (Z.eqb_spec (mant (of_int sr)) 0) as [E|_].
  { exfalso. exact (of_int_mant_nonzero sr Hsr E). }
  unfold py_range. destruct (Z.eqb_spec sr 0); [contradiction|].
  assert (R : range_length 0 (alen ([] : list A)) sr = 0).
  { unfold range_length, alen. simpl. destruct (0 <? sr); reflexivity. }
  rewrite R. reflexivity.
Qed.

End SilenceFacts.

(** C7.  The empty buffer at 16 kHz with the default threshold: a result,
    not an error. *)
Lemma detect_silence_empty_returns :
  ~ (exists e, Silence.detect_silence ([] : list Z) 16000 70 = Raise e).
Proof. intros [e He]. vm_compute in He. discriminate He. Qed.

Lemma detect_silence_empty_witness :
  Silence.detect_silence ([] : list PrimFloat.float) 16000
    (PrimFloat.of_uint63 70%uint63)
  = Ok (0, Binary64.Float 0 Binary64.emin).
Proof. apply detect_silence_empty. lia. Defined.

(** C8.  Three zero samples at two samples per second last 1.5 s and make
    two windows; the count is neither [floor(1.5 / 1)] nor
    [floor(1.5 / 0.5)]. *)
Lemma detect_silence_partial_window :
  (exists d, Silence.detect_silence [0; 0; 0] 2 70 = Ok (2, d)) /\
  Silence.spec_silent_count 3 2 1 = 1 /\
  Silence.spec_silent_count 3 2 (1 # 2) = 3.
Proof.
  split; [|split]; [|reflexivity|reflexivity].
  eexists. vm_compute. reflexivity.
Qed.

Lemma detect_silence_all_zero_witness :
  (exists d,
     Silence.detect_silence [PrimFloat.zero; PrimFloat.zero; PrimFloat.zero] 2
       (PrimFloat.of_uint63 70%uint63)
     = Ok (2, d))
  /\ (2 = Silence.spec_silent_count 3 2 1 <-> 3 mod 2 = 0).
Proof.
  apply (detect_silence_all_zero (A := PrimFloat.float)).
  - vm_compute. reflexivity.
  - vm_compute. reflexivity.
  - repeat constructor.
  - lia.
  - vm_compute. reflexivity.
Defined.

(** ** More about the silence detector *)
Section SilenceMore.
Import Binary64 B64Facts Silence Windows.
Context {A : Type} `{Sample A}.

(** With a rate that is not zero the function returns the count of the
    loop over the reversed energies. *)
Lemma detect_silence_counts (audio : list A) sr threshold :
  sr <> 0 ->
  exists d,
    detect_silence audio sr threshold
    = Ok (count_silent (List.rev (energies audio sr)) threshold 0, d).
Proof.
  intros Hsr. unfold detect_silence, energies, windows.
  destruct (get_duration_ok audio sr Hsr) as [d ->].
  unfold py_range. destruct (Z.eqb_spec sr 0); [contradiction|].
  destruct (div_1000_ok (mul d (of_int 1000))) as [y ->].
  exists y. rewrite !List.map_map. reflexivity.
Qed.

(** The counting loop stops at the first energy that is not below the
    threshold. *)
Lemma count_silent_run threshold (l : list A) : forall count,
  exists run rest,
    l = run ++ rest /\
    count_silent l threshold count = count + Z.of_nat (List.length run) /\
    Forall (silent threshold) run /\
    (rest = [] \/ exists x rest', rest = x :: rest' /\ s_ltb x threshold = false).
Proof.
  induction l as [|x l IH]; intros count.
  - exists [], []. repeat split; [simpl; lia|constructor|left; reflexivity].
  - cbn [count_silent]. destruct (s_ltb x threshold) eqn:Hx.
    + destruct (IH (count + 1)) as (run & rest & -> & Hc & Hrun & Hrest).
      exists (x :: run), rest. repeat split.
      * rewrite Hc. cbn [List.length]. lia.
      * constructor; [exact Hx|exact Hrun].
      * exact Hrest.
    + exists [], (x :: l). repeat split; [simpl; lia|constructor|].
      right. exists x, l. split; [reflexivity|exact Hx].
Qed.

(** X7.  The count is the length of the silent run at the end of the
    buffer: the energies of the windows split into a part that is empty
    or ends with a window at or above the threshold, and a run of [count]
    windows that are all below it. *)
Theorem detect_silence_trailing_run (audio : list A) (sr : Z) (threshold : A)
    (count : Z) (d : Binary64.float) :
  detect_silence audio sr threshold = Ok (count, d) ->
  exists loud quiet,
    energies audio sr = loud ++ quiet /\
    count = Z.of_nat (List.length quiet) /\
    Forall (silent threshold) quiet /\
    (loud = [] \/
     exists loud' x, loud = loud' ++ [x] /\ s_ltb x threshold = false).
Proof.
  intros Hd.
  assert (Hsr : sr <> 0).
  { intros ->.
    assert (Hr : detect_silence audio 0 threshold
                 = Raise (Exception "ZeroDivisionError"
                            (lit "float division by zero")))
      by reflexivity.
    rewrite Hr in Hd. discriminate Hd. }
  destruct (detect_silence_counts audio sr threshold Hsr) as [d' Hc].
  rewrite Hc in Hd. injection Hd as Hcount _.
  destruct (count_silent_run threshold (List.rev (energies audio sr)) 0)
    as (run & rest & Hrev & Hlen & Hrun & Hrest).
  exists (List.rev rest), (List.rev run).
  split; [|split; [|split]].
  - rewrite <- rev_app_distr, <- Hrev, rev_involutive. reflexivity.
  - rewrite length_rev. lia.
  - apply Forall_rev, Hrun.
  - destruct Hrest as [->|(x & rest' & -> & Hx)]; [left; reflexivity|].
    right. exists (List.rev rest'), x. split; [reflexivity|exact Hx].
Qed.

(** *** The windows cover the buffer *)

Lemma chunks_concat (step : nat) : forall (n : nat) (l : list A),
  (List.length l <= n * step)%nat ->
  List.concat
    (List.map (fun k => List.firstn step (List.skipn (k * step) l))
       (List.seq 0 n)) = l.
Proof.
  induction n as [|n IH]; intros l Hlen.
  - destruct l; [reflexivity|simpl in Hlen; lia].
  - cbn [List.seq List.map List.concat].
    change (0 * step)%nat with 0%nat. cbn [List.skipn].
    rewrite <- seq_shift, List.map_map.
    transitivity (List.firstn step l ++ List.skipn step l);
      [|apply firstn_skipn].
    f_equal.
    etransitivity; [|apply (IH (List.skipn step l)); rewrite length_skipn; lia].
    f_equal. apply List.map_ext. intros k.
    rewrite skipn_skipn. f_equal. f_equal. cbn [Nat.mul]. lia.
Qed.

Lemma windows_as_chunks (audio : list A) sr :
  0 < sr ->
  windows audio sr
  = List.map (fun k => List.firstn (Z.to_nat sr)
                         (List.skipn (k * Z.to_nat sr) audio))
      (List.seq 0 (Z.to_nat (window_count (alen audio) sr))).
Proof.
  intros Hsr. unfold windows, py_range.
  destruct (Z.eqb_spec sr 0); [lia|].
  rewrite range_length_windows by (unfold alen; lia).
  rewrite List.map_map. apply List.map_ext. intros k.
  unfold slice. f_equal; [f_equal; lia|].
  f_equal. rewrite Z.add_0_l, Z2Nat.inj_mul, Nat2Z.id by lia. reflexivity.
Qed.

(** X8.  With a positive rate the windows cut the buffer without gap or
    overlap: there are [ceil(n / sr)] of them and, put end to end, they
    are the buffer, so every sample is summed in exactly one window. *)
Theorem windows_cover_buffer (audio : list A) (sr : Z) :
  0 < sr ->
  List.concat (windows audio sr) = audio /\
  Z.of_nat (List.length (windows audio sr)) = window_count (alen audio) sr.
Proof.
  intros Hsr. rewrite windows_as_chunks by exact Hsr.
  pose proof (window_count_nonneg (alen audio) sr
                ltac:(unfold alen; lia) Hsr) as Hn.
  split.
  - apply chunks_concat.
    apply Nat2Z.inj_le. rewrite Nat2Z.inj_mul, !Z2Nat.id by lia.
    fold (alen audio). unfold window_count.
    pose proof (Z.mul_div_le (alen audio + sr - 1) sr Hsr).
    pose proof (Z.mod_pos_bound (alen audio + sr - 1) sr Hsr).
    pose proof (Z.div_mod (alen audio + sr - 1) sr ltac:(lia)).
    lia.
  - rewrite length_map, length_seq, Z2Nat.id by lia. reflexivity.
Qed.

End SilenceMore.

(** ** [format_timedelta] *)
Section TimedeltaFacts.
Import Timedelta.

Lemma shows_join sep result : shows result -> join sep result <> [].
Proof.
  destruct result as [|p [|q rest]]; cbn [shows join]; [contradiction|auto|].
  intros Hp Hj. destruct p; [contradiction|discriminate].
Qed.

Lemma part_nonempty n unit_name :
  str_of_int n ++ lit " " ++ lit unit_name <> [].
Proof.
  intros E. apply (f_equal (@List.length char)) in E.
  rewrite !length_app in E. change (List.length (lit " ")) with 1%nat in E.
  simpl in E. lia.
Qed.

Lemma append_shows result n unit_name :
  result = [] \/ shows result ->
  (0 < n \/ shows result) ->
  shows (append_if_positive result n unit_name).
Proof.
  intros Hres Hpos. unfold append_if_positive.
  destruct (Z.gtb_spec n 0) as [Hn|Hn].
  - destruct Hres as [->|Hs].
    + apply part_nonempty.
    + destruct result; [contradiction|exact Hs].
  - destruct Hpos as [Hp|Hs]; [lia|exact Hs].
Qed.

Lemma append_keeps result n unit_name :
  result = [] \/ shows result ->
  append_if_positive result n unit_name = [] \/
  shows (append_if_positive result n unit_name).
Proof.
  intros Hres. unfold append_if_positive.
  destruct (Z.gtb_spec n 0) as [Hn|Hn]; [|exact Hres].
  right. destruct Hres as [->|Hs].
  - apply part_nonempty.
  - destruct result; [contradiction|exact Hs].
Qed.

Lemma append_nothing result n unit_name :
  n <= 0 -> append_if_positive result n unit_name = result.
Proof.
  intros Hn. unfold append_if_positive.
  destruct (Z.gtb_spec n 0); [lia|reflexivity].
Qed.

Lemma components_bounds td :
  normalised td ->
  let '(d, h, m, s) := components td in
  d = days td /\ 0 <= h < 24 /\ 0 <= m < 60 /\ 0 <= s < 60 /\
  seconds td = 3600 * h + 60 * m + s.
Proof.
  intros [[Hlo Hhi] _]. unfold components.
  pose proof (Z.div_mod (seconds td) 3600 ltac:(lia)) as E1.
  pose proof (Z.mod_pos_bound (seconds td) 3600 ltac:(lia)) as B1.
  pose proof (Z.div_mod (seconds td mod 3600) 60 ltac:(lia)) as E2.
  pose proof (Z.mod_pos_bound (seconds td mod 3600) 60 ltac:(lia)) as B2.
  assert (0 <= seconds td / 3600 < 24).
  { split; [apply Z.div_pos; lia|apply Z.div_lt_upper_bound; lia]. }
  assert (0 <= (seconds td mod 3600) / 60 < 60).
  { split; [apply Z.div_pos; lia|apply Z.div_lt_upper_bound; lia]. }
  repeat split; lia.
Qed.

Lemma format_by_components td :
  format_timedelta td =
  let '(d, h, m, s) := components td in
  join (lit " e ")
    (append_if_positive
       (append_if_positive
          (append_if_positive (append_if_positive [] d "days") h "hours")
          m "minutes")
       s "seconds").
Proof. reflexivity. Qed.

(** X9.  [format_timedelta] prints whole hours, minutes and seconds below
    24, 60 and 60 that add up to the seconds of the duration; the
    microseconds are not looked at. *)
Theorem format_timedelta_parts (td : timedelta) :
  normalised td ->
  exists h m s,
    0 <= h < 24 /\ 0 <= m < 60 /\ 0 <= s < 60 /\
    seconds td = 3600 * h + 60 * m + s /\
    forall us,
      format_timedelta
        {| days := days td; seconds := seconds td; microseconds := us |}
      = join (lit " e ")
          (append_if_positive
             (append_if_positive
                (append_if_positive
                   (append_if_positive [] (days td) "days") h "hours")
                m "minutes")
             s "seconds").
Proof.
  intros Hn. pose proof (components_bounds td Hn) as Hc.
  unfold components in Hc. destruct Hc as (_ & Hh & Hm & Hs & Hsum).
  exists (seconds td / 3600), ((seconds td mod 3600) / 60),
    ((seconds td mod 3600) mod 60).
  repeat split; try lia. 
Qed.

(** X10.  The text is empty exactly when there is nothing positive to
    print: no whole second in [seconds] and no positive number of days.
    A duration under one second, and a negative duration of whole days,
    print as the empty string. *)
Theorem format_timedelta_empty_iff (td : timedelta) :
  normalised td ->
  (format_timedelta td = [] <-> days td <= 0 /\ seconds td = 0).
Proof.
  intros Hn. pose proof (components_bounds td Hn) as Hc.
  rewrite format_by_components. unfold components in *.
  destruct Hc as (_ & Hh & Hm & Hs & Hsum).
  set (h := seconds td / 3600) in *. set (m := (seconds td mod 3600) / 60) in *.
  set (s := (seconds td mod 3600) mod 60) in *. clearbody h m s.
  split.
  - intros Hempty.
    destruct (Z.le_gt_cases (days td) 0) as [Hd|Hd];
      destruct (Z.eq_dec h 0) as [Hh0|Hh0];
      destruct (Z.eq_dec m 0) as [Hm0|Hm0];
      destruct (Z.eq_dec s 0) as [Hs0|Hs0];
      try (split; lia);
      exfalso; revert Hempty; apply shows_join;
      repeat (apply append_shows;
              [repeat (apply append_keeps); left; reflexivity|]);
      try (left; lia);
      repeat (right; apply append_shows;
              [repeat (apply append_keeps); left; reflexivity|];
              try (left; lia)).
  - intros [Hd Hz]. assert (h = 0 /\ m = 0 /\ s = 0) as (-> & -> & ->) by lia.
    rewrite !append_nothing by lia. reflexivity.
Qed.

End TimedeltaFacts.

(** ** [get_message_info] *)
Section MessageInfoFacts.
Import MessageInfo.

(** X11.  [get_message_info] answers with the video note when the message
    has one, and with the voice only when it has no video note; the tag it
    returns names the attachment the id was read from.  It raises, an
    [AttributeError], exactly when the update has no message or the
    message has neither. *)
Theorem get_message_info_sound (update : tg_update) :
  (forall id tag,
     get_message_info update = Ok (id, tag) ->
     exists m, message update = Some m /\
       ((tag = lit "video_note" /\ option_map file_id (video_note m) = Some id)
        \/ (tag = lit "voice" /\ video_note m = None /\
            option_map file_id (voice m) = Some id))) /\
  (forall e,
     get_message_info update = Raise e ->
     exn_class e = "AttributeError"%string /\
     (message update = None \/
      exists m, message update = Some m /\
                video_note m = None /\ voice m = None)).
Proof.
  unfold get_message_info, file_id_of, attr, and_then.
  destruct update as [[[[v|] [a|]]|]]; cbn; split; intros;
    try discriminate;
    repeat match goal with
           | H : Ok _ = Ok _ |- _ => injection H as <- <-
           | H : Raise _ = Raise _ |- _ => injection H as <-
           end;
    try (eexists; split; [reflexivity|]; auto; fail);
    try (split; [reflexivity|]; auto; fail).
  split; [reflexivity|]. right. eexists. repeat split; reflexivity.
Qed.

End MessageInfoFacts.

(** ** The range of the progress percentage *)
Section PercentageRange.
Import Binary64 B64Facts.

(** X12.  For a positive number of chunks and [0 <= done <= num_chunks]
    the division succeeds and the percentage lies between 0 and 100. *)
Theorem percentage_in_range (done num_chunks : Z) :
  0 <= done <= num_chunks -> 0 < num_chunks ->
  exists p, percentage done num_chunks = Ok p /\ 0 <= p <= 100.
Proof.
  intros Hd Hn.
  assert (H0 : percentage 0 num_chunks = Ok 0).
  { rewrite percentage_ok by lia. reflexivity. }
  pose proof (percentage_full num_chunks Hn) as H100.
  pose proof (percentage_ok done num_chunks ltac:(lia) Hn) as Hp.
  eexists. split; [exact Hp|]. split.
  - exact (percentage_mono 0 done num_chunks _ _ ltac:(lia) Hn H0 Hp).
  - exact (percentage_mono done num_chunks num_chunks _ _ ltac:(lia) Hn Hp H100).
Qed.

End PercentageRange.

(** ** Facts about traces *)
Section TraceFacts.

Lemma attempted_app r t1 t2 : attempted r (t1 ++ t2) = attempted r t1 ++ attempted r t2.
Proof. apply flat_map_app. Qed.

Lemma delivered_app r t1 t2 : delivered r (t1 ++ t2) = delivered r t1 ++ delivered r t2.
Proof. apply flat_map_app. Qed.

Lemma edits_app t1 t2 : edits (t1 ++ t2) = edits t1 ++ edits t2.
Proof. apply flat_map_app. Qed.

Lemma edit_failures_app t1 t2 :
  edit_failures (t1 ++ t2) = edit_failures t1 ++ edit_failures t2.
Proof. apply flat_map_app. Qed.

Lemma logged_errors_app t1 t2 :
  logged_errors (t1 ++ t2) = logged_errors t1 ++ logged_errors t2.
Proof. apply flat_map_app. Qed.

Lemma decode_rates_app t1 t2 :
  decode_rates (t1 ++ t2) = decode_rates t1 ++ decode_rates t2.
Proof. apply flat_map_app. Qed.

Lemma chunker_rates_app t1 t2 :
  chunker_rates (t1 ++ t2) = chunker_rates t1 ++ chunker_rates t2.
Proof. apply flat_map_app. Qed.

Lemma extractor_rates_app t1 t2 :
  extractor_rates (t1 ++ t2) = extractor_rates t1 ++ extractor_rates t2.
Proof. apply flat_map_app. Qed.

Lemma download_events_quiet tr :
  Forall download_event tr ->
  quiet tr /\ edits tr = [] /\ edit_failures tr = [] /\
  extractor_rates tr = [] /\
  Forall (fun sr => sr = librosa_default_sr) (decode_rates tr).
Proof.
  induction 1 as [|ev tr Hev _ [[Q1 Q2 Q3 Q4] (E & F & X & D)]].
  - repeat split; constructor.
  - destruct ev as [[] raised| |]; simpl in Hev; try contradiction;
      (split; [split; intros; simpl; auto | simpl; repeat split; auto]).
Qed.

Lemma loop_events_quiet tr :
  Forall loop_event tr ->
  quiet tr /\ decode_rates tr = [] /\
  Forall (fun sr => sr = new_sr whisper) (extractor_rates tr).
Proof.
  induction 1 as [|ev tr Hev _ [[Q1 Q2 Q3 Q4] (D & X)]].
  - repeat split; constructor.
  - destruct ev as [[] raised| |]; simpl in Hev; try contradiction;
      (split; [split; intros; simpl; auto | simpl; split; auto]).
Qed.

Lemma final_events_quiet tr :
  Forall final_event tr ->
  attempted Error tr = [] /\ attempted Progress tr = [] /\
  logged_errors tr = [] /\ edits tr = [] /\
  edit_failures tr = [] /\ decode_rates tr = [] /\ chunker_rates tr = [] /\
  extractor_rates tr = [].
Proof.
  induction 1 as [|ev tr Hev _ IH].
  - repeat split.
  - destruct ev as [[| | | | | | |[] ?| |] raised| |]; simpl in Hev;
      try contradiction; simpl; exact IH.
Qed.

End TraceFacts.

(** ** Facts about the handler *)
Section HandlerFacts.
Import Binary64 B64Facts.
Context {world file audio chunk features ids : Type}.
Variable P : platform world file audio chunk features ids.

(** Case analysis on the next call of a run. *)
Ltac next_call :=
  match goal with
  | |- context [match ?op ?w with _ => _ end] =>
      let w' := fresh "w" in
      let x := fresh "x" in
      let e := fresh "e" in
      let E := fresh "E" in
      destruct (op w) as [w' [x|e]] eqn:E
  end.

Lemma transcribe_events c w :
  Forall loop_event (run_trace (transcribe P c w)) /\
  edits (run_trace (transcribe P c w)) = [] /\
  edit_failures (run_trace (transcribe P c w)) = [].
Proof.
  unfold transcribe, bind, do_call, lift, run_trace.
  repeat next_call; simpl; repeat split; repeat constructor.
Qed.

(** One turn of the loop. *)
Lemma stt_loop_cons c rest i n msg d w :
  stt_loop P i (c :: rest) n msg d w =
  match transcribe P c w with
  | (w1, t1, Raise e) => (w1, t1, Raise e)
  | (w1, t1, Ok t) =>
      match percentage (i + 1) n with
      | Raise e => (w1, t1, Raise e)
      | Ok p =>
          let ed := EditMessageText (progress_text p) msg in
          match edit_message_text P (progress_text p) msg w1 with
          | (w2, Raise e) => (w2, t1 ++ [Called ed (Some e)], Raise e)
          | (w2, Ok _) =>
              match stt_loop P (i + 1) rest n msg (d ++ t) w2 with
              | (w3, t3, r) => (w3, t1 ++ Called ed None :: t3, r)
              end
          end
      end
  end.
Proof.
  cbn [stt_loop]. unfold bind at 1.
  destruct (transcribe P c w) as [[w1 t1] [t|e]]; [|reflexivity].
  unfold bind at 1, lift.
  destruct (percentage (i + 1) n) as [p|e]; [|rewrite app_nil_r; reflexivity].
  unfold bind at 1, do_call. cbn zeta.
  destruct (edit_message_text P (progress_text p) msg w1) as [w2 [[]|e]].
  - destruct (stt_loop P (i + 1) rest n msg (d ++ t) w2) as [[w3 t3] r3].
    reflexivity.
  - reflexivity.
Qed.

(** The loop leaves model calls and progress edits only. *)
Lemma stt_loop_events chunks : forall i n msg d w,
  Forall loop_event (run_trace (stt_loop P i chunks n msg d w)).
Proof.
  induction chunks as [|c rest IH]; intros i n msg d w.
  - constructor.
  - rewrite stt_loop_cons.
    pose proof (transcribe_events c w) as (T & _ & _).
    destruct (transcribe P c w) as [[w1 t1] [t|e]]; [|exact T].
    unfold run_trace in T; simpl in T.
    destruct (percentage (i + 1) n) as [p|e]; [|exact T].
    cbn zeta.
    destruct (edit_message_text P (progress_text p) msg w1) as [w2 [[]|e]].
    + specialize (IH (i + 1) n msg (d ++ t) w2).
      destruct (stt_loop P (i + 1) rest n msg (d ++ t) w2) as [[w3 t3] r3].
      unfold run_trace in *; simpl in *.
      apply Forall_app; split; [exact T|]. constructor; [exact I|exact IH].
    + unfold run_trace; simpl. apply Forall_app; split; [exact T|].
      repeat constructor.
Qed.

(** A progress edit that fails ends the loop with its exception. *)
Lemma stt_loop_edit_failures chunks : forall i n msg d w,
  match run_result (stt_loop P i chunks n msg d w) with
  | Ok _ => edit_failures (run_trace (stt_loop P i chunks n msg d w)) = []
  | Raise e =>
      edit_failures (run_trace (stt_loop P i chunks n msg d w)) = [] \/
      ends_with_failed_edit e (run_trace (stt_loop P i chunks n msg d w))
  end.
Proof.
  induction chunks as [|c rest IH]; intros i n msg d w.
  - reflexivity.
  - rewrite stt_loop_cons.
    pose proof (transcribe_events c w) as (_ & _ & T).
    destruct (transcribe P c w) as [[w1 t1] [t|e]];
      unfold run_trace in T; simpl in T; [|left; exact T].
    destruct (percentage (i + 1) n) as [p|e]; [|left; exact T].
    cbn zeta.
    destruct (edit_message_text P (progress_text p) msg w1) as [w2 [[]|e]].
    + specialize (IH (i + 1) n msg (d ++ t) w2).
      destruct (stt_loop P (i + 1) rest n msg (d ++ t) w2) as [[w3 t3] [d3|e3]];
        unfold run_result, run_trace, ends_with_failed_edit in *; simpl in *;
        rewrite !edit_failures_app, T; simpl.
      * exact IH.
      * destruct IH as [IH|[IH (pre & text & m & ->)]]; [left; exact IH|].
        right. split; [exact IH|].
        exists (t1 ++ Called (EditMessageText (progress_text p) msg) None :: pre),
          text, m.
        rewrite <- app_assoc. reflexivity.
    + unfold run_result, run_trace, ends_with_failed_edit; simpl.
      rewrite !edit_failures_app, T. right. split; [reflexivity|].
      exists t1, (progress_text p), msg. reflexivity.
Qed.

(** The texts of the progress edits, chunk after chunk. *)
Lemma stt_loop_edits chunks : forall i n msg d w,
  0 <= i -> 0 < n ->
  exists k,
    (k <= List.length chunks)%nat /\
    edits (run_trace (stt_loop P i chunks n msg d w))
    = List.map (fun j => progress_text (percent_value (i + Z.of_nat j) n))
        (List.seq 1 k) /\
    (forall d', run_result (stt_loop P i chunks n msg d w) = Ok d' ->
                k = List.length chunks).
Proof.
  induction chunks as [|c rest IH]; intros i n msg d w Hi Hn.
  - exists 0%nat. repeat split; auto.
  - rewrite stt_loop_cons.
    pose proof (transcribe_events c w) as (_ & T & _).
    destruct (transcribe P c w) as [[w1 t1] [t|e]];
      unfold run_trace in T; simpl in T.
    2:{ exists 0%nat. repeat split; [simpl; lia|exact T|discriminate]. }
    assert (Hp : percentage (i + 1) n = Ok (percent_value (i + 1) n)).
    { unfold percent_value. rewrite percentage_ok by lia. reflexivity. }
    rewrite Hp. set (p := percent_value (i + 1) n). cbn zeta.
    destruct (edit_message_text P (progress_text p) msg w1) as [w2 [[]|e]].
    + destruct (IH (i + 1) n msg (d ++ t) w2) as (k & Hk & He & Hok); try lia.
      destruct (stt_loop P (i + 1) rest n msg (d ++ t) w2) as [[w3 t3] r3].
      unfold run_result, run_trace in *; simpl in *.
      exists (S k). split; [lia|]. split.
      * rewrite !edits_app, T. simpl. rewrite He. f_equal.
        rewrite <- (seq_shift k 1), List.map_map.
        apply List.map_ext. intros j. do 2 f_equal. lia.
      * intros d' Hd. f_equal. apply (Hok d'). exact Hd.
    + exists 1%nat. unfold run_result, run_trace; simpl.
      split; [lia|]. split; [|discriminate].
      rewrite !edits_app, T. reflexivity.
Qed.

(** *** The percentages of a whole run *)

Lemma percent_value_ok i n : 0 <= i -> 0 < n ->
  percentage i n = Ok (percent_value i n) /\
  percent_value i n = to_int (mul (round i n) (of_int 100)).
Proof.
  intros Hi Hn. unfold percent_value.
  rewrite percentage_ok by lia. rewrite round_nonneg by lia. split; reflexivity.
Qed.

Lemma percent_value_mono i j n :
  0 <= i <= j -> 0 < n -> percent_value i n <= percent_value j n.
Proof.
  intros Hij Hn.
  destruct (percent_value_ok i n) as [Hi _]; try lia.
  destruct (percent_value_ok j n) as [Hj _]; try lia.
  exact (percentage_mono i j n _ _ Hij Hn Hi Hj).
Qed.

Lemma nondecreasing_map_seq (f : nat -> Z) len : forall start,
  (forall j, f j <= f (S j)) ->
  nondecreasing (List.map f (List.seq start len)).
Proof.
  induction len as [|len IH]; intros start Hf.
  - exact I.
  - specialize (IH (S start) Hf). cbn [List.seq List.map nondecreasing].
    destruct len as [|len]; [exact I|].
    cbn [List.seq List.map] in *. split; [apply Hf|exact IH].
Qed.

Lemma progress_percentages_nondecreasing n :
  (0 < n)%nat -> nondecreasing (progress_percentages n).
Proof.
  intros Hn. unfold progress_percentages.
  apply nondecreasing_map_seq. intros j. apply percent_value_mono; lia.
Qed.

Lemma nondecreasing_firstn k : forall l,
  nondecreasing l -> nondecreasing (List.firstn k l).
Proof.
  induction k as [|k IH]; intros l Hl; [exact I|].
  destruct l as [|x [|y l]]; [exact I|destruct k; exact I|].
  destruct Hl as [Hxy Hl]. specialize (IH (y :: l) Hl).
  destruct k as [|k]; [exact I|].
  cbn [List.firstn nondecreasing] in *. split; [exact Hxy|exact IH].
Qed.

Lemma progress_percentages_last n :
  (0 < n)%nat -> List.last (progress_percentages n) 0 = 100.
Proof.
  intros Hn. unfold progress_percentages.
  destruct n as [|m]; [lia|].
  rewrite seq_S, List.map_app. cbn [List.map]. rewrite last_last.
  unfold percent_value. rewrite percentage_full by lia. reflexivity.
Qed.

Lemma firstn_seq_le k : forall start len,
  (k <= len)%nat -> List.firstn k (List.seq start len) = List.seq start k.
Proof.
  induction k as [|k IH]; intros start len Hk; [reflexivity|].
  destruct len as [|len]; [lia|].
  cbn [List.seq List.firstn]. rewrite IH by lia. reflexivity.
Qed.

Lemma progress_percentages_firstn k n :
  (k <= n)%nat ->
  List.firstn k (progress_percentages n)
  = List.map (fun j => percent_value (Z.of_nat j) (Z.of_nat n)) (List.seq 1 k).
Proof.
  intros Hk. unfold progress_percentages.
  rewrite firstn_map, firstn_seq_le by exact Hk. reflexivity.
Qed.

Lemma progress_percentages_length n :
  List.length (progress_percentages n) = n.
Proof. unfold progress_percentages. rewrite length_map, length_seq. reflexivity. Qed.

(** The percentage after [i] of [n] chunks is computed, and is the entry
    of that chunk. *)
Lemma progress_percentages_nth n i :
  (1 <= i <= n)%nat ->
  percentage (Z.of_nat i) (Z.of_nat n)
  = Ok (List.nth (i - 1) (progress_percentages n) 0).
Proof.
  intros Hi. unfold progress_percentages.
  set (f := fun k : nat => percent_value (Z.of_nat k) (Z.of_nat n)).
  rewrite (nth_indep _ 0 (f 0%nat)) by (rewrite length_map, length_seq; lia).
  rewrite map_nth, seq_nth by lia.
  replace (1 + (i - 1))%nat with i by lia.
  unfold f. apply percent_value_ok; lia.
Qed.

Lemma percent_value_range i n :
  0 <= i <= n -> 0 < n -> 0 <= percent_value i n <= 100.
Proof.
  intros Hi Hn.
  assert (H0 : percent_value 0 n = 0).
  { unfold percent_value. rewrite percentage_ok by lia. reflexivity. }
  assert (H100 : percent_value n n = 100).
  { unfold percent_value. rewrite percentage_full by lia. reflexivity. }
  pose proof (percent_value_mono 0 i n ltac:(lia) Hn).
  pose proof (percent_value_mono i n n ltac:(lia) Hn).
  lia.
Qed.

Lemma progress_percentages_range n :
  Forall (fun p => 0 <= p <= 100) (progress_percentages n).
Proof.
  unfold progress_percentages. apply Forall_forall. intros p Hp.
  apply in_map_iff in Hp. destruct Hp as (k & <- & Hk).
  apply in_seq in Hk. apply percent_value_range; lia.
Qed.

(** When the model answers every chunk and the platform takes every
    edit, the loop runs to its end: the percentage itself never fails. *)
Lemma stt_loop_completes (msg : message) chunks : forall i n d w,
  0 <= i -> 0 < n ->
  (forall c w0, In c chunks ->
                exists w1 t x, transcribe P c w0 = (w1, t, Ok x)) ->
  (forall text w0, exists w1, edit_message_text P text msg w0 = (w1, Ok tt)) ->
  exists d', run_result (stt_loop P i chunks n msg d w) = Ok d'.
Proof.
  induction chunks as [|c rest IH]; intros i n d w Hi Hn Hmodel Hedit.
  - exists d. reflexivity.
  - rewrite stt_loop_cons.
    destruct (Hmodel c w (or_introl eq_refl)) as (w1 & t1 & x & ->).
    rewrite (percentage_ok (i + 1) n) by lia. cbn zeta.
    match goal with
    | |- context [edit_message_text P ?text msg w1] =>
        destruct (Hedit text w1) as (w2 & ->)
    end.
    destruct (IH (i + 1) n (d ++ x) w2) as (d' & Hd'); try lia.
    + intros c0 w0 Hc0. apply Hmodel. right. exact Hc0.
    + exact Hedit.
    + exists d'.
      destruct (stt_loop P (i + 1) rest n msg (d ++ x) w2) as [[w3 t3] r3].
      exact Hd'.
Qed.

(** C4.  Over [n >= 1] chunks, with the chunk count the chunker reports
    equal to [n]: the percentage after each chunk is computed, the [n]
    percentages never decrease, lie between 0 and 100 and end at 100.
    The progress edits of a run carry them in order, up to the chunk at
    which the run stops: all of them when the loop completes, and the
    loop completes whenever the model answers every chunk and the
    platform takes every edit. *)
Theorem progress_nondecreasing_to_100 (chunks : list chunk)
    (msg : message) (w : world) :
  chunks <> [] ->
  let n := List.length chunks in
  let r := stt_loop P 0 chunks (Z.of_nat n) msg [] w in
  let ps := progress_percentages n in
  (forall i, (1 <= i <= n)%nat ->
     percentage (Z.of_nat i) (Z.of_nat n) = Ok (List.nth (i - 1) ps 0)) /\
  List.length ps = n /\
  nondecreasing ps /\
  Forall (fun p => 0 <= p <= 100) ps /\
  List.last ps 0 = 100 /\
  (exists k, (k <= n)%nat /\
     edits (run_trace r) = List.map progress_text (List.firstn k ps)) /\
  (forall d, run_result r = Ok d ->
     edits (run_trace r) = List.map progress_text ps) /\
  ((forall c w0, In c chunks ->
      exists w1 t x, transcribe P c w0 = (w1, t, Ok x)) ->
   (forall text w0,
      exists w1, edit_message_text P text msg w0 = (w1, Ok tt)) ->
   exists d, run_result r = Ok d /\
             edits (run_trace r) = List.map progress_text ps).
Proof.
  intros Hne n r ps.
  assert (Hn : (0 < n)%nat) by (subst n; destruct chunks; [contradiction|simpl; lia]).
  destruct (stt_loop_edits chunks 0 (Z.of_nat n) msg [] w) as (k & Hk & He & Hok);
    try lia.
  fold r in He, Hok. fold n in Hk.
  assert (Hpre : edits (run_trace r) = List.map progress_text (List.firstn k ps)).
  { rewrite He. subst ps. rewrite progress_percentages_firstn by exact Hk.
    rewrite List.map_map. reflexivity. }
  assert (Hall : forall d, run_result r = Ok d ->
            edits (run_trace r) = List.map progress_text ps).
  { intros d Hd. rewrite Hpre, (Hok d Hd). fold n.
    rewrite firstn_all2; [reflexivity|].
    subst ps. rewrite progress_percentages_length. lia. }
  split; [intros i Hi; apply progress_percentages_nth; exact Hi|].
  split; [apply progress_percentages_length|].
  split; [apply progress_percentages_nondecreasing, Hn|].
  split; [apply progress_percentages_range|].
  split; [apply progress_percentages_last, Hn|].
  split; [exists k; split; [exact Hk|exact Hpre]|].
  split; [exact Hall|].
  intros Hmodel Hedit.
  destruct (stt_loop_completes msg chunks 0 (Z.of_nat n) [] w) as (d & Hd);
    try lia; try assumption.
  exists d. split; [exact Hd|exact (Hall d Hd)].
Qed.

(** C5, as the code has it.  When the loop completes over [n] chunks, the
    progress edit after chunk [i] carries [int(i / n * 100)]: the double
    product cut toward zero, not rounded, so at most one below the rounded
    value the specification names. *)
Theorem progress_is_truncated (chunks : list chunk) (msg : message)
    (w : world) (d : pystr) (i : Z) :
  let n := Z.of_nat (List.length chunks) in
  let r := stt_loop P 0 chunks n msg [] w in
  run_result r = Ok d ->
  1 <= i <= n ->
  let p := to_int (mul (round i n) (of_int 100)) in
  percentage i n = Ok p /\
  List.nth (Z.to_nat (i - 1)) (edits (run_trace r)) [] = progress_text p /\
  exists q, spec_percentage i n = Ok q /\ p <= q <= p + 1.
Proof.
  intros n r Hd Hi p.
  destruct (percent_value_ok i n) as [Hp Hv]; try lia.
  fold p in Hv. rewrite Hv in Hp.
  split; [exact Hp|]. split.
  - destruct (stt_loop_edits chunks 0 n msg [] w) as (k & Hk & He & Hok);
      try lia.
    fold r in He, Hok. rewrite (Hok d Hd) in He. rewrite He.
    set (f := fun j : nat => progress_text (percent_value (0 + Z.of_nat j) n)).
    rewrite (nth_indep _ [] (f 0%nat))
      by (rewrite length_map, length_seq; lia).
    rewrite map_nth, seq_nth by lia.
    unfold f. rewrite <- Hv. do 2 f_equal. lia.
  - unfold spec_percentage, int_true_div.
    destruct (Z.eqb_spec n 0); [lia|].
    eexists. split; [reflexivity|].
    apply py_round_near_to_int.
    rewrite round_nonneg by lia.
    apply mul_mant_nonneg; [apply round_pos_mant_nonneg; lia|].
    rewrite of_int_100. simpl. lia.
Qed.

(** *** The phases of a request *)

Lemma downloading_events u w :
  Forall download_event (run_trace (downloading P u w)).
Proof.
  unfold downloading, librosa_load, bind, do_call, ret, run_trace.
  repeat next_call; simpl; repeat constructor.
Qed.

Lemma downloading_rate u w w1 t1 a :
  downloading P u w = (w1, t1, Ok a) -> snd a = librosa_default_sr.
Proof.
  unfold downloading, librosa_load, bind, do_call, ret.
  repeat next_call; intros Heq; inversion Heq; reflexivity.
Qed.

(** The transcribing phase leaves the progress message, then the events
    of the loop. *)
Lemma transcribing_run c w :
  exists raised t3,
    run_trace (transcribing P c w)
    = Called (ReplyText Progress (progress_text 0)) raised :: t3 /\
    Forall loop_event t3 /\
    match run_result (transcribing P c w) with
    | Ok _ => raised = None /\ edit_failures t3 = []
    | Raise e => edit_failures t3 = [] \/ ends_with_failed_edit e t3
    end.
Proof.
  unfold transcribing, bind, do_call, ret. cbn zeta.
  destruct (reply_text P (progress_text 0) w) as [w1 [msg|e]].
  - pose proof (stt_loop_events (fst c) 0 (snd c) msg [] w1) as Hev.
    pose proof (stt_loop_edit_failures (fst c) 0 (snd c) msg [] w1) as Hef.
    destruct (stt_loop P 0 (fst c) (snd c) msg [] w1) as [[w2 t2] [d|e]];
      unfold run_trace, run_result in *; simpl in *.
    + exists None, (t2 ++ []). rewrite app_nil_r. repeat split; assumption.
    + exists None, t2. repeat split; assumption.
  - exists (Some e), []. unfold run_trace, run_result; simpl.
    repeat split; [constructor|left; reflexivity].
Qed.

Lemma send_all_events msgs : forall w,
  Forall final_event (run_trace (send_all P msgs w)).
Proof.
  induction msgs as [|m rest IH]; intros w.
  - constructor.
  - cbn [send_all]. unfold bind at 1, log. unfold bind at 1, do_call.
    destruct (reply_text P m w) as [w1 [x|e]].
    + specialize (IH w1).
      destruct (send_all P rest w1) as [[w2 t2] r2].
      unfold run_trace in *; simpl in *. repeat constructor. exact IH.
    + unfold run_trace; simpl. repeat constructor.
Qed.

Lemma finalizing_events t w :
  Forall final_event (run_trace (finalizing P t w)).
Proof.
  unfold finalizing, bind, do_call.
  destruct (delete_message P (fst t) w) as [w1 [x|e]].
  - pose proof (send_all_events (BobBot.split_string (snd t)) w1) as Hev.
    destruct (send_all P (BobBot.split_string (snd t)) w1) as [[w2 t2] r2].
    unfold run_trace in *; simpl in *. constructor; [exact I|exact Hev].
  - unfold run_trace; simpl. repeat constructor.
Qed.

Lemma guarded_run a w :
  guarded P a w =
  match chunking P a w with
  | (w1, t1, Raise e) => (w1, t1, Raise e)
  | (w1, t1, Ok c) =>
      match transcribing P c w1 with
      | (w2, t2, Raise e) => (w2, t1 ++ t2, Raise e)
      | (w2, t2, Ok t) =>
          match finalizing P t w2 with
          | (w3, t3, r) => (w3, t1 ++ t2 ++ t3, r)
          end
      end
  end.
Proof.
  unfold guarded. unfold bind at 1.
  destruct (chunking P a w) as [[w1 t1] [c|e]]; [|reflexivity].
  unfold bind at 1.
  destruct (transcribing P c w1) as [[w2 t2] [t|e]]; [|reflexivity].
  destruct (finalizing P t w2) as [[w3 t3] r]. reflexivity.
Qed.

Lemma on_exception_run e w :
  exists w1 raised, on_exception P e w = (w1, handled e raised, ending raised).
Proof.
  unfold on_exception, bind, log, do_call, ret, handled, ending.
  destruct (reply_text P (exn_str e) w) as [w1 [x|e']].
  - exists w1, None. reflexivity.
  - exists w1, (Some e'). reflexivity.
Qed.

Lemma stt_run u w :
  stt P u w =
  let hello := LogInfo (lit "stt called from " ++ username u) in
  match downloading P u w with
  | (w1, t1, Raise e) => (w1, hello :: t1, Raise e)
  | (w1, t1, Ok a) =>
      match guarded P a w1 with
      | (w2, t2, Ok x) => (w2, hello :: t1 ++ t2, Ok x)
      | (w2, t2, Raise e) =>
          match on_exception P e w2 with
          | (w3, t3, r) => (w3, hello :: t1 ++ t2 ++ t3, r)
          end
      end
  end.
Proof.
  unfold stt. unfold bind at 1, log. unfold bind at 1. cbn zeta.
  destruct (downloading P u w) as [[w1 t1] [a|e]]; [|reflexivity].
  unfold try_except.
  destruct (guarded P a w1) as [[w2 t2] [x|e]]; [reflexivity|].
  destruct (on_exception P e w2) as [[w3 t3] r]. reflexivity.
Qed.

Ltac trace_eq :=
  cbn [app]; rewrite <- ?app_assoc; cbn [app]; reflexivity.

(** Every request goes one of the four ways. *)
Lemma stt_cases u w : stt_shape P u w.
Proof.
  pose proof (stt_run u w) as Hrun. cbn zeta in Hrun.
  pose proof (downloading_events u w) as Hd.
  destruct (downloading P u w) as [[w1 t1] [a|e]] eqn:Ed;
    unfold run_trace in Hd; simpl in Hd.
  2:{ eapply download_failed; [|exact Hrun|exact Hd].
      unfold failed_phase. rewrite Ed. reflexivity. }
  pose proof (downloading_rate u w w1 t1 a Ed) as Hrate.
  rewrite guarded_run in Hrun.
  destruct (chunking P a w1) as [[w2 t2] [c|e]] eqn:Ec.
  2:{ destruct (on_exception_run e w2) as (w3 & raised & Hh).
      rewrite Hh in Hrun.
      eapply chunking_failed with (raised := raised); [|rewrite Hrun|exact Hd].
      - unfold failed_phase. rewrite Ed, Ec. reflexivity.
      - revert Ec. unfold chunking, do_call. rewrite Hrate.
        destruct (get_chunks P (fst a) librosa_default_sr w1) as [? [?|?]];
          intros Ec; inversion Ec; subst. reflexivity. }
  assert (Ht2 : t2 = [chunker_call None]).
  { revert Ec. unfold chunking, do_call. rewrite Hrate.
    destruct (get_chunks P (fst a) librosa_default_sr w1) as [? [?|?]];
      intros Ec; inversion Ec; subst. reflexivity. }
  subst t2.
  destruct (transcribing_run c w2) as (sent & t3 & Ht & Hev & Hef).
  destruct (transcribing P c w2) as [[w3 t2] [t|e]] eqn:Et;
    unfold run_trace, run_result in Ht, Hef; simpl in Ht, Hef; subst t2.
  2:{ destruct (on_exception_run e w3) as (w4 & raised & Hh).
      rewrite Hh in Hrun.
      eapply transcribing_failed with (raised := raised) (sent := sent);
        [|rewrite Hrun|exact Hd|exact Hev|exact Hef].
      - unfold failed_phase. rewrite Ed, Ec, Et. reflexivity.
      - trace_eq. }
  destruct Hef as [-> Hef].
  pose proof (finalizing_events t w3) as Hf.
  destruct (finalizing P t w3) as [[w4 t4] [x|e]] eqn:Ef;
    unfold run_trace in Hf; simpl in Hf.
  - eapply transcribed with (t4 := t4) (tail := []);
      [|rewrite Hrun|exact Hd|exact Hev|exact Hef|exact Hf|left; reflexivity].
    + unfold failed_phase. rewrite Ed, Ec, Et. reflexivity.
    + rewrite app_nil_r. trace_eq.
  - destruct (on_exception_run e w4) as (w5 & raised & Hh).
    rewrite Hh in Hrun.
    eapply transcribed with (t4 := t4) (tail := handled e raised);
      [|rewrite Hrun|exact Hd|exact Hev|exact Hef|exact Hf
       |right; exists e, raised; reflexivity].
    + unfold failed_phase. rewrite Ed, Ec, Et. reflexivity.
    + trace_eq.
Qed.

Ltac rates :=
  repeat (apply Forall_app; split);
  first [assumption | repeat constructor].

Ltac observe :=
  rewrite ?attempted_app, ?delivered_app, ?logged_errors_app,
    ?edit_failures_app, ?edits_app, ?decode_rates_app, ?chunker_rates_app,
    ?extractor_rates_app.

Lemma handled_observed e raised :
  logged_errors (handled e raised) = [e] /\
  attempted Error (handled e raised) = [exn_str e] /\
  attempted Progress (handled e raised) = [] /\
  delivered Transcript (handled e raised) = [] /\
  edit_failures (handled e raised) = [] /\
  ((ending raised = Ok tt /\ delivered Error (handled e raised) = [exn_str e])
   \/ (exists e', ending raised = Raise e' /\
                  delivered Error (handled e raised) = [])).
Proof.
  destruct raised as [e'|]; repeat split; try reflexivity.
  - right. exists e'. split; reflexivity.
  - left. split; reflexivity.
Qed.

(** C1, as the code has it.  The download stands before the [try]: when
    it fails the exception leaves the handler, nothing is logged as an
    error and no message of any kind is sent.  An exception in the
    Chunking or Transcribing phase is caught: it is logged, one error
    message with its description is sent (and delivered unless that very
    reply raises), no piece of transcript is delivered, and after a failed
    Chunking no progress message was sent. *)
Theorem stt_failure_outcome (u : update) (w : world) (ph : phase) (e : exn) :
  failed_phase P u w = Some (ph, e) ->
  let r := stt P u w in
  let tr := run_trace r in
  delivered Transcript tr = [] /\
  match ph with
  | Downloading =>
      run_result r = Raise e /\ logged_errors tr = [] /\
      (forall k, attempted k tr = [])
  | _ =>
      logged_errors tr = [e] /\
      attempted Error tr = [exn_str e] /\
      ((run_result r = Ok tt /\ delivered Error tr = [exn_str e]) \/
       (exists e', run_result r = Raise e' /\ delivered Error tr = [])) /\
      (ph = Chunking -> attempted Progress tr = [])
  end.
Proof.
  intros Hf r tr. subst r tr.
  destruct (stt_cases u w)
    as [w' t1 e0 Hph Hrun Hd
       |w' t1 e0 raised Hph Hrun Hd
       |w' t1 sent t3 e0 raised Hph Hrun Hd Hl Hef
       |w' t1 t3 t4 tail r Hph Hrun Hd Hl Hef Hfin Htail];
    rewrite Hph in Hf; inversion Hf; subst; clear Hf;
    rewrite Hrun; unfold run_trace, run_result; cbn [fst snd];
    destruct (download_events_quiet t1 Hd) as ([A1 D1 L1 C1] & _).
  - observe. rewrite D1, L1. repeat split; try reflexivity.
    intros k. observe. rewrite A1. destruct k; reflexivity.
  - destruct (handled_observed e raised) as (H1 & H2 & H3 & H4 & _ & H6).
    observe. rewrite !D1, L1, !A1, H1, H2, H3, H4.
    repeat split; try reflexivity.
    destruct H6 as [[R E']|(e' & R & E')]; rewrite E'; [left|right; exists e'];
      split; assumption || reflexivity.
  - destruct (handled_observed e raised) as (H1 & H2 & H3 & H4 & _ & H6).
    destruct (loop_events_quiet t3 Hl) as ([A3 D3 L3 C3] & _).
    observe. rewrite !D1, L1, !A1, !D3, L3, !A3, H1, H2, H4.
    repeat split; try reflexivity; try discriminate.
    + destruct sent; reflexivity.
    + destruct H6 as [[R E']|(e' & R & E')]; rewrite E';
        [left|right; exists e']; (split; [assumption|]);
        destruct sent; reflexivity.
Qed.

(** C6, as the code has it.  A progress edit that raises ends the request
    like any other exception of the Transcribing phase: it is the only
    edit that failed and the last call before the [except] clause, so the
    chunks after it are not reached; no piece of transcript is delivered,
    and the exception is logged and sent to the user as the error
    message. *)
Theorem edit_failure_aborts (u : update) (w : world) (e : exn) :
  let tr := run_trace (stt P u w) in
  In e (edit_failures tr) ->
  failed_phase P u w = Some (Transcribing, e) /\
  edit_failures tr = [e] /\
  delivered Transcript tr = [] /\
  logged_errors tr = [e] /\
  attempted Error tr = [exn_str e] /\
  exists pre text m raised,
    tr = pre ++ Called (EditMessageText text m) (Some e) :: handled e raised.
Proof.
  intros tr. subst tr.
  destruct (stt_cases u w)
    as [w' t1 e0 Hph Hrun Hd
       |w' t1 e0 raised Hph Hrun Hd
       |w' t1 sent t3 e0 raised Hph Hrun Hd Hl Hef
       |w' t1 t3 t4 tail r Hph Hrun Hd Hl Hef Hfin Htail];
    rewrite Hrun; unfold run_trace; cbn [fst snd];
    destruct (download_events_quiet t1 Hd) as ([A1 D1 L1 C1] & _ & F1 & _).
  - observe. rewrite F1. intros [].
  - destruct (handled_observed e0 raised) as (_ & _ & _ & _ & H5 & _).
    observe. rewrite F1, H5. intros [].
  - destruct (handled_observed e0 raised) as (H1 & H2 & H3 & H4 & H5 & _).
    destruct (loop_events_quiet t3 Hl) as ([A3 D3 L3 C3] & _).
    destruct Hef as [Hef|[Hef (pre & text & m & Hpre)]].
    + observe. rewrite F1, H5, Hef. destruct sent; intros [].
    + intros Hin.
      assert (He : e = e0).
      { revert Hin. observe. rewrite F1, H5, Hef.
        destruct sent; intros [<-|[]]; reflexivity. }
      subst e0. split; [exact Hph|].
      split; [observe; rewrite F1, H5, Hef; destruct sent; reflexivity|].
      split; [observe; rewrite !D1, !D3, H4; destruct sent; reflexivity|].
      split; [observe; rewrite L1, L3, H1; destruct sent; reflexivity|].
      split; [observe; rewrite !A1, !A3, H2; destruct sent; reflexivity|].
      exists ([hello u] ++ t1 ++ [chunker_call None; progress_call sent] ++ pre),
        text, m, raised.
      rewrite Hpre. rewrite <- !app_assoc. reflexivity.
  - destruct (final_events_quiet t4 Hfin) as (_ & _ & _ & _ & F4 & _).
    observe. rewrite F1, Hef, F4.
    destruct Htail as [->|(e1 & raised & ->)]; [intros []|].
    destruct (handled_observed e1 raised) as (_ & _ & _ & _ & H5 & _).
    rewrite H5. intros [].
Qed.

(** C9, as the code has it.  The handler decodes at [librosa.load]'s
    default rate, 22050 Hz, and hands the buffer to the chunker with that
    rate; 16000 Hz is the rate it names to the feature extractor, chunk
    by chunk. *)
Theorem stt_sample_rates (u : update) (w : world) :
  let tr := run_trace (stt P u w) in
  decodes_at 22050 tr /\
  Forall (fun sr => sr = 16000) (extractor_rates tr).
Proof.
  intros tr. subst tr. unfold decodes_at.
  destruct (stt_cases u w)
    as [w' t1 e0 Hph Hrun Hd
       |w' t1 e0 raised Hph Hrun Hd
       |w' t1 sent t3 e0 raised Hph Hrun Hd Hl Hef
       |w' t1 t3 t4 tail r Hph Hrun Hd Hl Hef Hfin Htail];
    rewrite Hrun; unfold run_trace; cbn [fst snd];
    destruct (download_events_quiet t1 Hd) as ([A1 D1 L1 C1] & _ & _ & X1 & R1).
  - observe. rewrite C1, X1. split; rates.
  - observe. rewrite C1, X1. destruct raised; split; rates.
  - destruct (loop_events_quiet t3 Hl) as ([A3 D3 L3 C3] & R3 & X3).
    observe. rewrite C1, X1, C3, R3. destruct sent, raised; split; rates.
  - destruct (loop_events_quiet t3 Hl) as ([A3 D3 L3 C3] & R3 & X3).
    destruct (final_events_quiet t4 Hfin) as (_ & _ & _ & _ & _ & R4 & C4 & X4).
    observe. rewrite C1, X1, C3, R3, R4, C4, X4.
    destruct Htail as [->|(e1 & [e2|] & ->)]; split; rates.
Qed.

End HandlerFacts.

(** ** More about the handler *)
Section HandlerMore.
Context {world file audio chunk features ids : Type}.
Variable P : platform world file audio chunk features ids.

Lemma deletions_app t1 t2 : deletions (t1 ++ t2) = deletions t1 ++ deletions t2.
Proof. apply flat_map_app. Qed.

Lemma edited_app t1 t2 : edited (t1 ++ t2) = edited t1 ++ edited t2.
Proof. apply flat_map_app. Qed.

Lemma download_events_untouched tr :
  Forall download_event tr -> deletions tr = [] /\ edited tr = [].
Proof.
  induction 1 as [|ev tr Hev _ IH]; [repeat split|].
  destruct ev as [[] raised| |]; simpl in Hev; try contradiction; exact IH.
Qed.

Lemma loop_events_untouched tr :
  Forall loop_event tr -> deletions tr = [].
Proof.
  induction 1 as [|ev tr Hev _ IH]; [reflexivity|].
  destruct ev as [[] raised| |]; simpl in Hev; try contradiction; exact IH.
Qed.

Lemma final_events_untouched tr :
  Forall final_event tr -> edited tr = [].
Proof.
  induction 1 as [|ev tr Hev _ IH]; [reflexivity|].
  destruct ev as [[| | | | | | |[] ?| |] raised| |]; simpl in Hev;
    try contradiction; exact IH.
Qed.

Lemma handled_untouched e raised :
  deletions (handled e raised) = [] /\ edited (handled e raised) = [].
Proof. split; reflexivity. Qed.

Ltac observe_more :=
  rewrite ?attempted_app, ?delivered_app, ?logged_errors_app,
    ?edit_failures_app, ?edits_app, ?deletions_app, ?edited_app.

(** X13.  Whatever happens, a request gets at most one progress message,
    the one that says 0 per cent, and at most one error message; an error
    message is sent exactly when an exception was logged, and carries its
    description. *)
Theorem one_progress_one_error (u : update) (w : world) :
  let tr := run_trace (stt P u w) in
  (attempted Progress tr = [] \/ attempted Progress tr = [progress_text 0]) /\
  (List.length (logged_errors tr) <= 1)%nat /\
  attempted Error tr = List.map exn_str (logged_errors tr).
Proof.
  intros tr. subst tr.
  destruct (stt_cases P u w)
    as [w' t1 e0 Hph Hrun Hd
       |w' t1 e0 raised Hph Hrun Hd
       |w' t1 sent t3 e0 raised Hph Hrun Hd Hl Hef
       |w' t1 t3 t4 tail r Hph Hrun Hd Hl Hef Hfin Htail];
    rewrite Hrun; unfold run_trace; cbn [fst snd];
    destruct (download_events_quiet t1 Hd) as ([A1 D1 L1 C1] & _).
  - observe_more. rewrite !A1, L1. repeat split; auto.
  - destruct (handled_observed e0 raised) as (H1 & H2 & H3 & _).
    observe_more. rewrite !A1, L1, H1, H2, H3. repeat split; auto.
  - destruct (handled_observed e0 raised) as (H1 & H2 & H3 & _).
    destruct (loop_events_quiet t3 Hl) as ([A3 D3 L3 C3] & _).
    observe_more. rewrite !A1, L1, !A3, L3, H1, H2, H3.
    destruct sent; repeat split; auto.
  - destruct (loop_events_quiet t3 Hl) as ([A3 D3 L3 C3] & _).
    destruct (final_events_quiet t4 Hfin) as (E4 & P4 & L4 & _).
    observe_more. rewrite !A1, L1, !A3, L3, E4, P4, L4.
    destruct Htail as [->|(e1 & raised & ->)].
    + repeat split; auto.
    + destruct (handled_observed e1 raised) as (H1 & H2 & H3 & _).
      rewrite H1, H2, H3. repeat split; auto.
Qed.

(** X14.  The progress message is taken away only once every chunk is
    transcribed: when an exception is raised in the Downloading, Chunking
    or Transcribing phase [delete_message] is never called, so a progress
    message that was sent stays, with the last percentage it was given. *)
Theorem progress_message_stays_on_failure (u : update) (w : world)
    (ph : phase) (e : exn) :
  failed_phase P u w = Some (ph, e) ->
  deletions (run_trace (stt P u w)) = [].
Proof.
  intros Hf.
  destruct (stt_cases P u w)
    as [w' t1 e0 Hph Hrun Hd
       |w' t1 e0 raised Hph Hrun Hd
       |w' t1 sent t3 e0 raised Hph Hrun Hd Hl Hef
       |w' t1 t3 t4 tail r Hph Hrun Hd Hl Hef Hfin Htail];
    rewrite Hph in Hf; inversion Hf; subst;
    rewrite Hrun; unfold run_trace; cbn [fst snd];
    destruct (download_events_untouched t1 Hd) as (D1 & _).
  - observe_more. rewrite D1. reflexivity.
  - destruct (handled_untouched e raised) as (H1 & _).
    observe_more. rewrite D1, H1. reflexivity.
  - destruct (handled_untouched e raised) as (H1 & _).
    pose proof (loop_events_untouched t3 Hl) as D3.
    observe_more. rewrite D1, D3, H1. reflexivity.
Qed.

(** *** After the last chunk *)

(** The loop reads the model's answers in the order of the chunks. *)
Lemma stt_loop_decoded (hears : chunk -> pystr) :
  (forall c w w' t x, transcribe P c w = (w', t, Ok x) -> x = hears c) ->
  forall chunks i n msg d0 w w' tr d,
    stt_loop P i chunks n msg d0 w = (w', tr, Ok d) ->
    d = d0 ++ List.concat (List.map hears chunks).
Proof.
  intros Hpure. induction chunks as [|c rest IH];
    intros i n msg d0 w w' tr d Hrun.
  - cbn in Hrun. injection Hrun as _ _ <-. cbn. rewrite app_nil_r. reflexivity.
  - rewrite stt_loop_cons in Hrun.
    destruct (transcribe P c w) as [[w1 t1] [t|e]] eqn:Et; [|discriminate].
    apply Hpure in Et. subst t.
    destruct (percentage (i + 1) n) as [p|e]; [|discriminate].
    cbn zeta in Hrun.
    destruct (edit_message_text P (progress_text p) msg w1) as [w2 [[]|e]];
      [|discriminate].
    destruct (stt_loop P (i + 1) rest n msg (d0 ++ hears c) w2)
      as [[w3 t3] r3] eqn:El.
    injection Hrun as _ _ ->.
    apply IH in El. subst d. cbn [List.map List.concat].
    rewrite <- app_assoc. reflexivity.
Qed.

(** The edits of the loop all go to the message it was given. *)
Lemma stt_loop_edited chunks : forall i n msg d w,
  Forall (fun m => m = msg) (edited (run_trace (stt_loop P i chunks n msg d w))).
Proof.
  induction chunks as [|c rest IH]; intros i n msg d w.
  - constructor.
  - rewrite stt_loop_cons.
    pose proof (transcribe_events P c w) as (T & _ & _).
    assert (Tq : forall t, Forall loop_event t ->
              (forall x, In x (edits t) -> False) -> edited t = []).
    { clear. intros t Ht. induction Ht as [|ev t Hev _ IHt]; [reflexivity|].
      intros Hno. destruct ev as [[] raised| |]; simpl in Hev;
        try contradiction; try (apply IHt; intros x Hx; apply (Hno x);
                                simpl; auto; fail).
      exfalso. apply (Hno text). simpl. left. reflexivity. }
    pose proof (transcribe_events P c w) as (_ & Te & _).
    destruct (transcribe P c w) as [[w1 t1] [t|e]];
      unfold run_trace in *; cbn [fst snd] in *.
    2:{ rewrite (Tq t1 T); [constructor|]. rewrite Te. intros x []. }
    assert (E1 : edited t1 = []).
    { apply (Tq t1 T). rewrite Te. intros x []. }
    destruct (percentage (i + 1) n) as [p|e]; cbn [fst snd];
      [|rewrite E1; constructor].
    cbn zeta.
    destruct (edit_message_text P (progress_text p) msg w1) as [w2 [[]|e]].
    + specialize (IH (i + 1) n msg (d ++ t) w2).
      destruct (stt_loop P (i + 1) rest n msg (d ++ t) w2) as [[w3 t3] r3].
      cbn [fst snd] in *. rewrite edited_app, E1. cbn.
      constructor; [reflexivity|exact IH].
    + cbn [fst snd]. rewrite edited_app, E1. cbn.
      constructor; [reflexivity|constructor].
Qed.

(** The pieces are sent in order until one reply raises. *)
Lemma send_all_delivered msgs : forall w,
  exists k,
    (k <= List.length msgs)%nat /\
    delivered Transcript (run_trace (send_all P msgs w)) = List.firstn k msgs /\
    deletions (run_trace (send_all P msgs w)) = [] /\
    (forall x, run_result (send_all P msgs w) = Ok x -> k = List.length msgs) /\
    (forall e, run_result (send_all P msgs w) = Raise e ->
               (k < List.length msgs)%nat).
Proof.
  induction msgs as [|m rest IH]; intros w.
  - exists 0%nat. repeat split; auto. discriminate.
  - cbn [send_all]. unfold bind at 1 2 3 4, log.
    unfold bind at 1 2 3 4, do_call.
    destruct (reply_text P m w) as [w1 [x|e]].
    + destruct (IH w1) as (k & Hk & Hd & Hdel & Hok & Herr).
      destruct (send_all P rest w1) as [[w2 t2] r2].
      unfold run_trace, run_result in *; cbn [fst snd] in *.
      exists (S k). rewrite !delivered_app, !deletions_app, Hd, Hdel.
      cbn.
      repeat split; auto; try lia.
      * intros y Hy. f_equal. apply (Hok y Hy).
      * intros e He. specialize (Herr e He). lia.
    + exists 0%nat. unfold run_trace, run_result; cbn.
      repeat split; auto; try lia. discriminate.
Qed.

Lemma finalizing_delivered msg d w :
  exists k,
    (k <= List.length (BobBot.split_string d))%nat /\
    delivered Transcript (run_trace (finalizing P (msg, d) w))
    = List.firstn k (BobBot.split_string d) /\
    deletions (run_trace (finalizing P (msg, d) w)) = [msg] /\
    (forall x, run_result (finalizing P (msg, d) w) = Ok x ->
               k = List.length (BobBot.split_string d)).
Proof.
  unfold finalizing. cbn [fst snd]. unfold bind, do_call.
  destruct (delete_message P msg w) as [w1 [x|e]].
  - destruct (send_all_delivered (BobBot.split_string d) w1)
      as (k & Hk & Hd & Hdel & Hok & _).
    destruct (send_all P (BobBot.split_string d) w1) as [[w2 t2] r2].
    unfold run_trace, run_result in *; cbn [fst snd] in *.
    exists k. rewrite !delivered_app, !deletions_app, Hd, Hdel.
    repeat split; auto.
  - exists 0%nat. unfold run_trace, run_result; cbn.
    repeat split; auto; try lia. discriminate.
Qed.

(** The run of a request whose chunks were all transcribed. *)
Lemma stt_after_transcribing u w w1 t1 a w2 t2 c w3 t3 t :
  downloading P u w = (w1, t1, Ok a) ->
  chunking P a w1 = (w2, t2, Ok c) ->
  transcribing P c w2 = (w3, t3, Ok t) ->
  stt P u w =
  match finalizing P t w3 with
  | (w4, t4, Ok x) => (w4, [hello u] ++ t1 ++ t2 ++ t3 ++ t4, Ok x)
  | (w4, t4, Raise e) =>
      match on_exception P e w4 with
      | (w5, t5, r) => (w5, [hello u] ++ t1 ++ t2 ++ t3 ++ t4 ++ t5, r)
      end
  end.
Proof.
  intros Ed Ec Et. rewrite stt_run. cbn zeta. rewrite Ed, guarded_run, Ec, Et.
  unfold hello.
  destruct (finalizing P t w3) as [[w4 t4] [x|e]].
  - cbn [app]. reflexivity.
  - destruct (on_exception P e w4) as [[w5 t5] r].
    cbn [app]. rewrite <- !app_assoc. reflexivity.
Qed.

(** What the third phase leaves: one progress reply, then edits of the
    message that reply returned. *)
Lemma transcribing_observed c w w3 t3 msg d :
  transcribing P c w = (w3, t3, Ok (msg, d)) ->
  Forall (fun m => m = msg) (edited t3) /\ deletions t3 = [] /\
  delivered Transcript t3 = [] /\ logged_errors t3 = [].
Proof.
  unfold transcribing, bind, do_call, ret. cbn zeta.
  destruct (reply_text P (progress_text 0) w) as [w1 [m|e]]; [|discriminate].
  pose proof (stt_loop_edited (fst c) 0 (snd c) m [] w1) as Hed.
  pose proof (stt_loop_events P (fst c) 0 (snd c) m [] w1) as Hev.
  destruct (stt_loop P 0 (fst c) (snd c) m [] w1) as [[w2 t2] [x|e]];
    [|discriminate].
  unfold run_trace in *; cbn [fst snd] in *.
  intros Heq. injection Heq as _ <- <- _.
  pose proof (loop_events_untouched t2 Hev) as D2.
  destruct (loop_events_quiet t2 Hev) as ([A2 V2 L2 C2] & _).
  rewrite app_nil_r. cbn [app].
  change (Called (ReplyText Progress (progress_text 0)) None :: t2)
    with ([Called (ReplyText Progress (progress_text 0)) None] ++ t2).
  observe_more. rewrite D2, V2, L2. repeat split; auto.
Qed.

Lemma chunking_observed a w w2 t2 r :
  chunking P a w = (w2, t2, r) ->
  edited t2 = [] /\ deletions t2 = [] /\ delivered Transcript t2 = [] /\
  logged_errors t2 = [].
Proof.
  unfold chunking, do_call.
  destruct (get_chunks P (fst a) (snd a) w) as [w1 [x|e]];
    intros Heq; injection Heq as _ <- _; repeat split.
Qed.

(** X15.  With every chunk transcribed, the handler asks once for the
    removal of the progress message, the very message every progress edit
    went to, and then sends the pieces of [split_string] of the decoded
    text in order, stopping at the first reply that raises: what reaches
    the user is a prefix of the pieces, and all of them when no exception
    was logged. *)
Theorem transcript_sent_in_order (u : update) (w : world)
    (msg : message) (d : pystr) :
  decoded P u w = Some (msg, d) ->
  let tr := run_trace (stt P u w) in
  let pieces := BobBot.split_string d in
  deletions tr = [msg] /\
  Forall (fun m => m = msg) (edited tr) /\
  (exists k, (k <= List.length pieces)%nat /\
             delivered Transcript tr = List.firstn k pieces) /\
  (logged_errors tr = [] ->
   delivered Transcript tr = pieces /\ run_result (stt P u w) = Ok tt).
Proof.
  unfold decoded. intros Hdec.
  destruct (downloading P u w) as [[w1 t1] [a|e]] eqn:Ed; [|discriminate].
  destruct (chunking P a w1) as [[w2 t2] [c|e]] eqn:Ec; [|discriminate].
  destruct (transcribing P c w2) as [[w3 t3] [t|e]] eqn:Et; [|discriminate].
  injection Hdec as ->.
  pose proof (downloading_events P u w) as Hd. rewrite Ed in Hd.
  unfold run_trace in Hd; cbn [fst snd] in Hd.
  destruct (download_events_untouched t1 Hd) as (D1 & E1).
  destruct (download_events_quiet t1 Hd) as ([_ V1 L1 _] & _).
  destruct (chunking_observed a w1 w2 t2 _ Ec) as (E2 & D2 & V2 & L2).
  destruct (transcribing_observed c w2 w3 t3 msg d Et)
    as (E3 & D3 & V3 & L3).
  destruct (finalizing_delivered msg d w3) as (k & Hk & V4 & D4 & Hok).
  pose proof (finalizing_events P (msg, d) w3) as Hfin.
  rewrite (stt_after_transcribing u w w1 t1 a w2 t2 c w3 t3 (msg, d) Ed Ec Et).
  destruct (finalizing P (msg, d) w3) as [[w4 t4] [[]|e]];
    unfold run_trace, run_result in *; cbn [fst snd] in *;
    pose proof (final_events_untouched t4 Hfin) as E4;
    destruct (final_events_quiet t4 Hfin) as (_ & _ & L4 & _).
  - observe_more.
    rewrite D1, D2, D3, D4, E1, E2, E4, V1, V2, V3, V4, L1, L2, L3, L4.
    cbn [app]. rewrite app_nil_r.
    repeat split; auto.
    + exists k. split; [exact Hk|reflexivity].
    + rewrite (Hok tt eq_refl). apply firstn_all.
  - destruct (on_exception_run P e w4) as (w5 & raised & ->).
    destruct (handled_untouched e raised) as (D5 & E5).
    destruct (handled_observed e raised) as (L5 & _ & _ & V5 & _).
    cbn [fst snd]. observe_more.
    rewrite D1, D2, D3, D4, D5, E1, E2, E4, E5, V1, V2, V3, V4, V5,
      L1, L2, L3, L4, L5.
    cbn [app]. rewrite !app_nil_r.
    repeat split; auto.
    + exists k. split; [exact Hk|reflexivity].
    + discriminate.
    + discriminate.
Qed.

(** X17.  When the model answers each chunk by a text of its own, the
    text the third phase hands on is the texts of the chunks one after
    the other, in the order of the chunks, with nothing put between
    them. *)
Theorem transcript_in_chunk_order (hears : chunk -> pystr)
    (c : list chunk * Z) (w w' : world) (t : trace)
    (msg : message) (d : pystr) :
  (forall c0 w0 w1 t0 x, transcribe P c0 w0 = (w1, t0, Ok x) -> x = hears c0) ->
  transcribing P c w = (w', t, Ok (msg, d)) ->
  d = List.concat (List.map hears (fst c)).
Proof.
  intros Hpure. unfold transcribing, bind, do_call, ret. cbn zeta.
  destruct (reply_text P (progress_text 0) w) as [w1 [m|e]]; [|discriminate].
  destruct (stt_loop P 0 (fst c) (snd c) m [] w1) as [[w2 t2] [x|e]] eqn:El;
    [|discriminate].
  intros Heq. injection Heq as _ _ _ <-.
  apply (stt_loop_decoded hears Hpure) in El. exact El.
Qed.

End HandlerMore.

(** ** Concrete runs *)
Section Runs.
Import Script.

(** C1.  The download fails: the exception leaves the handler and no
    error message is delivered, where the claim wants exactly one. *)
Lemma download_failure_not_reported :
  ~ failure_reported (scripted download_fails) request 0%nat.
Proof.
  intros H. specialize (H Downloading timeout eq_refl).
  destruct H as [H _]. vm_compute in H. discriminate H.
Qed.

Lemma stt_failure_outcome_witness :
  let r := stt (scripted chunker_fails) request 0%nat in
  let tr := run_trace r in
  delivered Transcript tr = [] /\
  logged_errors tr = [bad_audio] /\
  attempted Error tr = [exn_str bad_audio] /\
  ((run_result r = Ok tt /\ delivered Error tr = [exn_str bad_audio]) \/
   (exists e', run_result r = Raise e' /\ delivered Error tr = [])) /\
  (Chunking = Chunking -> attempted Progress tr = []).
Proof.
  exact (stt_failure_outcome (scripted chunker_fails) request 0%nat
           Chunking bad_audio eq_refl).
Defined.

(** C4.  Three chunks the model answers, every edit taken: the loop
    completes and its edits say 33, 66, 100. *)
Lemma progress_nondecreasing_to_100_witness :
  let r := stt_loop (scripted all_fine) 0 [[1]; [2]; [3]] 3
             (Message 7 42) [] 0%nat in
  exists d,
    run_result r = Ok d /\
    edits (run_trace r) = List.map progress_text (progress_percentages 3) /\
    nondecreasing (progress_percentages 3) /\
    List.last (progress_percentages 3) 0 = 100.
Proof.
  destruct (progress_nondecreasing_to_100 (scripted all_fine)
              [[1]; [2]; [3]] (Message 7 42) 0%nat)
    as (_ & _ & Hmono & _ & Hlast & _ & _ & Hruns).
  - discriminate.
  - destruct Hruns as (d & Hd & He).
    + intros c w0 _. eexists _, _, _. reflexivity.
    + intros text w0. eexists. reflexivity.
    + exists d. split; [exact Hd|]. split; [exact He|].
      split; [exact Hmono|exact Hlast].
Defined.

(** C5.  After the second of three chunks the edit says 66, where
    [round(2 / 3 * 100)] is 67. *)
Lemma progress_not_rounded :
  edits (run_trace (stt (scripted all_fine) request 0%nat))
  = [progress_text 33; progress_text 66; progress_text 100] /\
  percentage 2 3 = Ok 66 /\
  spec_percentage 2 3 = Ok 67.
Proof. vm_compute. repeat split; reflexivity. Qed.

Lemma progress_is_truncated_witness :
  let r := stt_loop (scripted all_fine) 0 [[1]; [2]; [3]] 3
             (Message 7 42) [] 0%nat in
  let p := Binary64.to_int
             (Binary64.mul (Binary64.round 2 3) (Binary64.of_int 100)) in
  percentage 2 3 = Ok p /\
  List.nth 1 (edits (run_trace r)) [] = progress_text p /\
  exists q, spec_percentage 2 3 = Ok q /\ p <= q <= p + 1.
Proof.
  apply (progress_is_truncated (scripted all_fine) [[1]; [2]; [3]]
           (Message 7 42) 0%nat (lit "hi hi hi ") 2).
  - vm_compute. reflexivity.
  - simpl. lia.
Defined.

(** C6.  The model hears all three chunks, the second progress edit is
    refused: no transcript is delivered and the user gets the error. *)
Lemma edit_failure_not_tolerated :
  ~ edit_failure_tolerated (scripted edit_fails) request 0%nat.
Proof.
  intros H. unfold edit_failure_tolerated in H.
  destruct H as [H _].
  - vm_compute. reflexivity.
  - vm_compute. discriminate.
  - apply H. vm_compute. reflexivity.
Qed.

Lemma edit_failure_aborts_witness :
  let tr := run_trace (stt (scripted edit_fails) request 0%nat) in
  failed_phase (scripted edit_fails) request 0%nat
  = Some (Transcribing, not_modified) /\
  edit_failures tr = [not_modified] /\
  delivered Transcript tr = [] /\
  logged_errors tr = [not_modified] /\
  attempted Error tr = [exn_str not_modified] /\
  exists pre text m raised,
    tr = pre ++ Called (EditMessageText text m) (Some not_modified)
                :: handled not_modified raised.
Proof.
  apply (edit_failure_aborts (scripted edit_fails) request 0%nat not_modified).
  vm_compute. left. reflexivity.
Defined.

(** C9.  The buffer is decoded, and handed to the chunker, at 22050 Hz. *)
Lemma not_decoded_at_16k :
  ~ decodes_at 16000 (run_trace (stt (scripted all_fine) request 0%nat)).
Proof.
  intros H. vm_compute in H. inversion H as [|sr rest Hsr _]. discriminate Hsr.
Qed.

End Runs.

(** ** More concrete inputs *)
Section MoreRuns.
Import Script.

(** X1.  The text of 4100 times "a ", which goes through the loop: its
    first piece has 4096 characters. *)
Lemma pieces_at_most_4096_witness :
  Forall (fun p => len p <= 4096) (BobBot.split_string pairs_8200) /\
  Forall (fun p => len p <= 4096) (Utils.split_string pairs_8200).
Proof.
  apply (pieces_at_most_4096 pairs_8200).
  unfold pairs_8200. rewrite split_pairs.
  apply Forall_forall. intros w Hw.
  apply repeat_spec in Hw. subst w. discriminate.
Defined.

(** X2.  The one-letter word of the same text lies in one of its three
    pieces. *)
Lemma word_lies_in_a_piece_witness :
  exists p, In p (BobBot.split_string pairs_8200) /\
            In (lit "a") (split p) /\ len (lit "a") <= len p.
Proof.
  apply (word_lies_in_a_piece pairs_8200 (lit "a")).
  unfold pairs_8200. rewrite split_pairs.
  change (List.repeat (lit "a") 4100)
    with (lit "a" :: List.repeat (lit "a") 4099).
  left. reflexivity.
Defined.

(** X3.  The text of 4100 times "a ": no piece is empty. *)
Lemma empty_pieces_witness :
  match split pairs_8200 with
  | [] => BobBot.split_string pairs_8200 = [[]]
  | w :: ws =>
      if len w + 1 >? 4096
      then exists rest, BobBot.split_string pairs_8200 = [] :: rest
      else Forall (fun p => p <> []) (BobBot.split_string pairs_8200)
  end.
Proof.
  apply (empty_pieces pairs_8200).
  unfold pairs_8200. rewrite len_str_repeat. vm_compute. discriminate.
Defined.

End MoreRuns.

Section MoreSilenceRuns.
Import Binary64 Silence Windows.

(** X7.  Seven samples at two samples a second, threshold 70: the third
    window holds the loud sample, the fourth is the short one. *)
Lemma detect_silence_trailing_run_witness :
  exists loud quiet,
    energies [0; 0; 0; 0; 100; 0; 0] 2 = loud ++ quiet /\
    1 = Z.of_nat (List.length quiet) /\
    Forall (silent 70) quiet /\
    (loud = [] \/
     exists loud' x, loud = loud' ++ [x] /\ s_ltb x 70 = false).
Proof.
  apply (detect_silence_trailing_run [0; 0; 0; 0; 100; 0; 0] 2 70 1
           (Float 7881299347898368 (-51))).
  vm_compute. reflexivity.
Defined.

(** X8.  Seven samples in windows of two. *)
Lemma windows_cover_buffer_witness :
  List.concat (windows [1; 2; 3; 4; 5; 6; 7] 2) = [1; 2; 3; 4; 5; 6; 7] /\
  Z.of_nat (List.length (windows [1; 2; 3; 4; 5; 6; 7] 2))
  = window_count (alen [1; 2; 3; 4; 5; 6; 7]) 2.
Proof.
  apply (windows_cover_buffer [1; 2; 3; 4; 5; 6; 7] 2). lia.
Defined.

End MoreSilenceRuns.

Section MoreUtilsRuns.
Import Timedelta.

(** X9. *)
Lemma format_timedelta_parts_witness :
  exists h m s,
    0 <= h < 24 /\ 0 <= m < 60 /\ 0 <= s < 60 /\
    seconds a_day_and_more = 3600 * h + 60 * m + s /\
    forall us,
      format_timedelta
        {| days := days a_day_and_more; seconds := seconds a_day_and_more;
           microseconds := us |}
      = join (lit " e ")
          (append_if_positive
             (append_if_positive
                (append_if_positive
                   (append_if_positive [] (days a_day_and_more) "days")
                   h "hours")
                m "minutes")
             s "seconds").
Proof.
  apply (format_timedelta_parts a_day_and_more).
  unfold normalised, a_day_and_more. cbn. lia.
Defined.

(** X10.  Half a second prints as nothing. *)
Lemma format_timedelta_empty_iff_witness :
  format_timedelta {| days := 0; seconds := 0; microseconds := 500000 |} = []
  <-> days {| days := 0; seconds := 0; microseconds := 500000 |} <= 0 /\
      seconds {| days := 0; seconds := 0; microseconds := 500000 |} = 0.
Proof.
  apply (format_timedelta_empty_iff
           {| days := 0; seconds := 0; microseconds := 500000 |}).
  unfold normalised. cbn. lia.
Defined.

(** X12.  Two chunks of three. *)
Lemma percentage_in_range_witness :
  exists p, percentage 2 3 = Ok p /\ 0 <= p <= 100.
Proof. apply (percentage_in_range 2 3); lia. Defined.

End MoreUtilsRuns.

Section MoreHandlerRuns.
Import Script.

(** X14.  The second progress edit is refused: the progress message is
    not removed. *)
Lemma progress_message_stays_on_failure_witness :
  deletions (run_trace (stt (scripted edit_fails) request 0%nat)) = [].
Proof.
  apply (progress_message_stays_on_failure (scripted edit_fails) request
           0%nat Transcribing not_modified).
  vm_compute. reflexivity.
Defined.

(** X15.  Three chunks heard as "hi " each. *)
Lemma transcript_sent_in_order_witness :
  let tr := run_trace (stt (scripted all_fine) request 0%nat) in
  let pieces := BobBot.split_string (lit "hi hi hi ") in
  deletions tr = [Message 7 42] /\
  Forall (fun m => m = Message 7 42) (edited tr) /\
  (exists k, (k <= List.length pieces)%nat /\
             delivered Transcript tr = List.firstn k pieces) /\
  (logged_errors tr = [] ->
   delivered Transcript tr = pieces /\
   run_result (stt (scripted all_fine) request 0%nat) = Ok tt).
Proof.
  apply (transcript_sent_in_order (scripted all_fine) request 0%nat
           (Message 7 42) (lit "hi hi hi ")).
  vm_compute. reflexivity.
Defined.

(** X17.  The model of the script answers "hi " to every chunk. *)
Lemma transcript_in_chunk_order_witness :
  lit "hi hi hi "
  = List.concat (List.map (fun _ => lit "hi ") (fst ([[1]; [2]; [3]], 3))).
Proof.
  apply (transcript_in_chunk_order (scripted all_fine) (fun _ => lit "hi ")
           ([[1]; [2]; [3]], 3) 0%nat
           (fst (fst (transcribing (scripted all_fine)
                        ([[1]; [2]; [3]], 3) 0%nat)))
           (snd (fst (transcribing (scripted all_fine)
                        ([[1]; [2]; [3]], 3) 0%nat)))
           (Message 7 42)).
  - intros c0 w0 w1 t0 x Hrun. vm_compute in Hrun.
    injection Hrun as _ _ <-. reflexivity.
  - vm_compute. reflexivity.
Defined.

End MoreHandlerRuns.
